(** * Instanced capped cylinders: a shallow embedding

    The development follows two source files of the repository:

    - [cappedcylindercollection.py]: the deferred collection
      ([add_cylinder] queues descriptors, [refresh] builds or updates the
      two instanced meshes), embedded in [Module Deferred];
    - [newcappedcylindercollection.py]: the bulk collection (all arrays are
      handed to [__init__], [set_colors] and [set_transforms] replace whole
      attributes), embedded in [Module Bulk].

    It also covers their forerunners and the scripts around them:

    - [cappedcylinderclasstest.py]: the eager collection, whose visuals
      exist from [__init__] on, in [Module Eager];
    - [cappedcylinderstest.py]: the same batches built by a script, in
      [Module Script];
    - [gpucolorcollisiontest.py]: picking by ID color, in [Module Picking];
    - [spherecollisiontest.py]: picking by ray casting, in [Module RayPick];
    - [vispyneuronthreadplot.py] and [vispyneuronthreadtest.py]: the color
      shown for a voltage, the plotted traces and the worker's emission
      rhythm, in [Module Plot].

    Conventions.

    - Numbers.  A [float32] is read as a real number, so [@], [+], [-], [*]
      and [/] are the exact operations of [R]; a [uint32] index is read as
      a natural number; a Python [int] is in [Z].
    - Exceptions.  A computation that can raise returns a [result]; a
      method is a function from the store it can touch to a [result] and
      the store it leaves, which keeps what was written before a raise.
    - Shared objects.  The class attributes holding the unit geometry are
      a record of optional slots shared by all collections of the class;
      the [InstancedMesh] visuals live in a heap addressed by handles,
      a constructor call appends to it and an attribute assignment
      rewrites the visual in place.
    - Outside the repository.  numpy operations are embedded by their
      documented behaviour on the shapes the code passes them; the
      [InstancedMesh] constructor is taken to return a visual for whatever
      arrays it is given. *)

From Stdlib Require Import Reals Lra Lia ZArith.
From stdpp Require Import base option list.

Open Scope R_scope.

(** ** Exceptions and the two monads *)

Inductive exn := AssertionError | ValueError | IndexError.

Inductive result (A : Type) :=
| Ok (a : A)
| Raise (e : exn).
Arguments Ok {A} a.
Arguments Raise {A} e.

Definition is_ok {A} (r : result A) : Prop :=
  match r with Ok _ => True | Raise _ => False end.

Definition rbind {A B} (r : result A) (k : A -> result B) : result B :=
  match r with
  | Ok a => k a
  | Raise e => Raise e
  end.

(** A method body: it reads and writes a store [St] and may raise; what it
    wrote before raising stays written. *)
Definition M (St A : Type) := St -> result A * St.

Definition ret {St A} (a : A) : M St A := fun s => (Ok a, s).
Definition raise {St A} (e : exn) : M St A := fun s => (Raise e, s).
Definition bind {St A B} (m : M St A) (k : A -> M St B) : M St B :=
  fun s => match m s with
           | (Ok a, s') => k a s'
           | (Raise e, s') => (Raise e, s')
           end.
Definition gets {St A} (f : St -> A) : M St A := fun s => (Ok (f s), s).
Definition modify {St} (f : St -> St) : M St unit := fun s => (Ok tt, f s).
Definition lift {St A} (r : result A) : M St A := fun s => (r, s).
Definition assert_ {St} (b : bool) : M St unit :=
  if b then ret tt else raise AssertionError.

Declare Scope py_scope.
Delimit Scope py_scope with py.
Notation "x <- m ;; k" := (bind m (fun x => k))
  (at level 100, m at next level, right associativity) : py_scope.
Notation "m ;;; k" := (bind m (fun _ => k))
  (at level 100, right associativity) : py_scope.
Notation "x <~ r ;; k" := (rbind r (fun x => k))
  (at level 100, r at next level, right associativity) : py_scope.

(** ** Vectors, matrices and the numpy operations the code uses *)

Record vec3 := V3 { vx : R; vy : R; vz : R }.
Record rgba := RGBA { cr : R; cg : R; cb : R; ca : R }.
(** A 3x3 array, stored by rows as numpy does. *)
Record mat3 := M3 { row0 : vec3; row1 : vec3; row2 : vec3 }.
(** One row of an index array: three vertex numbers. *)
Record face := Face { f0 : nat; f1 : nat; f2 : nat }.

Definition vadd (a b : vec3) : vec3 := V3 (vx a + vx b) (vy a + vy b) (vz a + vz b).
Definition vsub (a b : vec3) : vec3 := V3 (vx a - vx b) (vy a - vy b) (vz a - vz b).
(** A row of a (N,3) array times the matching row of a (N,1) array. *)
Definition vscale (a : vec3) (s : R) : vec3 := V3 (vx a * s) (vy a * s) (vz a * s).
Definition dot (a b : vec3) : R := vx a * vx b + vy a * vy b + vz a * vz b.

Definition col0 (A : mat3) : vec3 := V3 (vx (row0 A)) (vx (row1 A)) (vx (row2 A)).
Definition col1 (A : mat3) : vec3 := V3 (vy (row0 A)) (vy (row1 A)) (vy (row2 A)).
(** [A[:, 2]] *)
Definition col2 (A : mat3) : vec3 := V3 (vz (row0 A)) (vz (row1 A)) (vz (row2 A)).


(** [A @ v] *)
Definition matvec (A : mat3) (v : vec3) : vec3 :=
  V3 (dot (row0 A) v) (dot (row1 A) v) (dot (row2 A) v).

(** [A @ B] *)
Definition matmul (A B : mat3) : mat3 :=
  let r a := V3 (dot a (col0 B)) (dot a (col1 B)) (dot a (col2 B)) in
  M3 (r (row0 A)) (r (row1 A)) (r (row2 A)).

(** [np.diag([a, b, c])] *)
Definition np_diag (a b c : R) : mat3 := M3 (V3 a 0 0) (V3 0 b 0) (V3 0 0 c).
(** [np.eye(3)] *)
Definition np_eye : mat3 := np_diag 1 1 1.

Definition zero3 : vec3 := V3 0 0 0.
Definition zero33 : mat3 := M3 zero3 zero3 zero3.
Definition zero4 : rgba := RGBA 0 0 0 0.

(** [np.zeros((n, ...))]: [n] rows of zeros. *)
Definition np_zeros {A} (z : A) (n : nat) : list A := replicate n z.
(** [np.ones(n)] *)
Definition np_ones (n : nat) : list R := replicate n 1.

(** [np.linspace(start, stop, num, endpoint=False)]: [num] samples
    [i * step + start] with [step = (stop - start) / num]; a negative
    [num] is a [ValueError]. *)
Definition np_linspace (start stop : R) (num : Z) : result (list R) :=
  if (num <? 0)%Z then Raise ValueError
  else
    let n := Z.to_nat num in
    let step := (stop - start) / INR n in
    Ok (map (fun i => INR i * step + start) (seq 0 n)).

(** [np.stack([xs, ys], axis=1)]: the rows [(xs[i], ys[i])]. *)
Definition np_stack2 (xs ys : list R) : list (R * R) := zip xs ys.
(** [np.column_stack([pts, zs])]: the rows [(pts[i].x, pts[i].y, zs[i])]. *)
Definition np_column_stack (pts : list (R * R)) (zs : list R) : list vec3 :=
  zip_with (fun p z => V3 (fst p) (snd p) z) pts zs.

(** [np.vstack(rows)] on a list of rows: the rows stacked; a [ValueError]
    when the list is empty. *)
Definition np_vstack {A} (rows : list A) : result (list A) :=
  match rows with
  | [] => Raise ValueError
  | _ :: _ => Ok rows
  end.

(** [a[i]] and [a[i] = x] on a Python list or a numpy array: an index
    outside the array is an [IndexError]. *)
Definition getitem {A} (a : list A) (i : nat) : result A :=
  match a !! i with
  | Some x => Ok x
  | None => Raise IndexError
  end.
Definition setitem {A} (a : list A) (i : nat) (x : A) : result (list A) :=
  if decide (i < length a)%nat then Ok (<[i:=x]> a) else Raise IndexError.

(** [for i in items: acc = body i acc], stopping at the first exception. *)
Fixpoint for_each {I A} (body : I -> A -> result A) (items : list I) (acc : A)
  : result A :=
  match items with
  | [] => Ok acc
  | i :: rest => rbind (body i acc) (for_each body rest)
  end.

(** [enumerate(l)] *)
Definition enumerate {A} (l : list A) : list (nat * A) := zip (seq 0 (length l)) l.

(** ** GeometryFactory: the two unit meshes

    The same block appears in both source files, guarded by
    [if CappedCylinderCollection._side_vertices is None]. *)

(** The index loop of the side wall: two faces per segment. *)
Definition side_faces_loop (S : nat) : list face :=
  fold_left
    (fun idx i =>
       let ni := ((i + 1) mod S)%nat in
       (idx ++ [Face i (i + S) ni]) ++ [Face ni (i + S) (ni + S)])
    (seq 0 S) [].

(** Side-wall geometry from [segs] segments: vertices and faces. *)
Definition side_geometry (segs : Z) : result (list vec3 * list face) :=
  (angles <~ np_linspace 0 (2 * PI) segs ;;
   let S := Z.to_nat segs in
   let circle_pts := np_stack2 (map cos angles) (map sin angles) in
   let bottom := np_column_stack circle_pts (map (Rmult (-0.5)) (np_ones S)) in
   let top := np_column_stack circle_pts (map (Rmult 0.5) (np_ones S)) in
   Ok (bottom ++ top, side_faces_loop S))%py.

(** Disk geometry from [slices] slices: the centre, the rim, and the fan. *)
Definition disk_geometry (slices : Z) : result (list vec3 * list face) :=
  (angles <~ np_linspace 0 (2 * PI) slices ;;
   let K := Z.to_nat slices in
   let circle_pts := np_stack2 (map cos angles) (map sin angles) in
   let verts2d := (0, 0) :: circle_pts in
   let verts3d := map (fun p => V3 (fst p) (snd p) 0) verts2d in
   let idx := map (fun i => Face 0 i (i + 1)) (seq 1 (K - 1)) in
   Ok (verts3d, idx ++ [Face 0 K 1]))%py.

(** ** RenderBatchSink: the instanced visuals

    [vispy.scene.visuals.InstancedMesh] is outside the repository; only the
    attributes the collections pass or assign are kept.  The geometry
    arguments hold whatever the class attribute held, [None] included. *)

Record InstancedMesh := {
  vertices : option (list vec3);
  faces : option (list face);
  instance_positions : list vec3;
  instance_transforms : list mat3;
  instance_colors : list rgba
}.

(** A reference to a visual: its position in the heap of visuals. *)
Definition handle := nat.

Definition set_instance_positions (v : list vec3) (m : InstancedMesh) :=
  {| vertices := vertices m; faces := faces m; instance_positions := v;
     instance_transforms := instance_transforms m;
     instance_colors := instance_colors m |}.
Definition set_instance_transforms (v : list mat3) (m : InstancedMesh) :=
  {| vertices := vertices m; faces := faces m;
     instance_positions := instance_positions m; instance_transforms := v;
     instance_colors := instance_colors m |}.
Definition set_instance_colors (v : list rgba) (m : InstancedMesh) :=
  {| vertices := vertices m; faces := faces m;
     instance_positions := instance_positions m;
     instance_transforms := instance_transforms m; instance_colors := v |}.

(** The class attributes [_side_vertices], [_side_indices],
    [_disk_vertices], [_disk_indices]: one slot each, shared by every
    collection of the class. *)
Record ClassAttrs := {
  _side_vertices : option (list vec3);
  _side_indices : option (list face);
  _disk_vertices : option (list vec3);
  _disk_indices : option (list face)
}.

Definition no_geometry : ClassAttrs :=
  {| _side_vertices := None; _side_indices := None;
     _disk_vertices := None; _disk_indices := None |}.

Definition set_side (g : list vec3 * list face) (c : ClassAttrs) : ClassAttrs :=
  {| _side_vertices := Some (fst g); _side_indices := Some (snd g);
     _disk_vertices := _disk_vertices c; _disk_indices := _disk_indices c |}.
Definition set_disk (g : list vec3 * list face) (c : ClassAttrs) : ClassAttrs :=
  {| _side_vertices := _side_vertices c; _side_indices := _side_indices c;
     _disk_vertices := Some (fst g); _disk_indices := Some (snd g) |}.

(** ** TransformCompiler: the per-instance loops both files share *)

(** [for k in range(n):
       out[k] = oris[k] @ np.diag([radii[k], radii[k], heights[k]])]
    on [out = np.zeros((n, 3, 3))]. *)
Definition side_transforms (n : nat) (radii heights : list R) (oris : list mat3)
  : result (list mat3) :=
  for_each
    (fun k out =>
       (r <~ getitem radii k ;;
        h <~ getitem heights k ;;
        o <~ getitem oris k ;;
        setitem out k (matmul o (np_diag r r h)))%py)
    (seq 0 n) (np_zeros zero33 n).

(** The same loop with [np.diag([radii[k], radii[k], 1.0])]. *)
Definition cap_transforms (n : nat) (radii : list R) (oris : list mat3)
  : result (list mat3) :=
  for_each
    (fun k out =>
       (r <~ getitem radii k ;;
        o <~ getitem oris k ;;
        setitem out k (matmul o (np_diag r r 1)))%py)
    (seq 0 n) (np_zeros zero33 n).

(** ** The deferred collection ([cappedcylindercollection.py]) *)

Module Deferred.

(** A queued instance: the tuple [(pos, radius, height, col, ori)]. *)
Record Instance := {
  pos : vec3;
  rad : R;
  ht : R;
  col : rgba;
  ori : mat3
}.

Record Collection := {
  _instances : list Instance;
  _side_mesh : option handle;
  _disk_mesh : option handle;
  _segs : Z;
  _slices : Z
}.

(** What a method of one collection can touch. *)
Record Store := {
  cls : ClassAttrs;
  heap : list InstancedMesh;
  self : Collection
}.

Definition with_cls (f : ClassAttrs -> ClassAttrs) (s : Store) : Store :=
  {| cls := f (cls s); heap := heap s; self := self s |}.
Definition with_heap (f : list InstancedMesh -> list InstancedMesh) (s : Store) : Store :=
  {| cls := cls s; heap := f (heap s); self := self s |}.
Definition with_self (f : Collection -> Collection) (s : Store) : Store :=
  {| cls := cls s; heap := heap s; self := f (self s) |}.

(** [__init__(parent, cylinder_segments, disk_slices)] *)
Definition init (cylinder_segments disk_slices : Z) : Collection :=
  {| _instances := []; _side_mesh := None; _disk_mesh := None;
     _segs := cylinder_segments; _slices := disk_slices |}.

Definition append_instance (i : Instance) (c : Collection) : Collection :=
  {| _instances := _instances c ++ [i]; _side_mesh := _side_mesh c;
     _disk_mesh := _disk_mesh c; _segs := _segs c; _slices := _slices c |}.
Definition set_side_mesh (h : handle) (c : Collection) : Collection :=
  {| _instances := _instances c; _side_mesh := Some h;
     _disk_mesh := _disk_mesh c; _segs := _segs c; _slices := _slices c |}.
Definition set_disk_mesh (h : handle) (c : Collection) : Collection :=
  {| _instances := _instances c; _side_mesh := _side_mesh c;
     _disk_mesh := Some h; _segs := _segs c; _slices := _slices c |}.

(** [add_cylinder(position, radius, height, color, orientation=None)] *)
Definition add_cylinder (position : vec3) (radius height : R) (color : rgba)
    (orientation : option mat3) : M Store unit :=
  let o := match orientation with Some o => o | None => np_eye end in
  modify (with_self (append_instance
    {| pos := position; rad := radius; ht := height; col := color; ori := o |})).

(** The constructor call [InstancedMesh(...)]: a new visual in the heap. *)
Definition new_mesh (m : InstancedMesh) : M Store handle :=
  fun s => (Ok (length (heap s)), with_heap (fun h => h ++ [m]) s).

(** Attribute assignments on an existing visual. *)
Definition update_mesh (h : handle) (f : InstancedMesh -> InstancedMesh)
  : M Store unit :=
  modify (with_heap (alter f h)).

(** Lines 76-85: the lateral batch. *)
Definition lateral_batch (instances : list Instance)
  : result (list vec3 * list mat3 * list rgba) :=
  (let M := length instances in
   side_pos <~ np_vstack (map pos instances) ;;
   let radii := map rad instances in
   let heights := map ht instances in
   colors <~ np_vstack (map col instances) ;;
   let oris := map ori instances in
   side_xf <~ side_transforms M radii heights oris ;;
   Ok (side_pos, side_xf, colors))%py.

(** One turn of the loop of lines 105-115. *)
Definition cap_step (e : nat * Instance)
    (acc : list vec3 * list mat3 * list rgba)
  : result (list vec3 * list mat3 * list rgba) :=
  (let '(i, inst) := e in
   let '(cap_pos, cap_xf, cap_col) := acc in
   let bi := (2 * i)%nat in
   let ti := (2 * i + 1)%nat in
   let bottom := matvec (ori inst) (V3 0 0 (-0.5 * ht inst)) in
   let top := matvec (ori inst) (V3 0 0 (0.5 * ht inst)) in
   cap_pos <~ setitem cap_pos bi (vadd (pos inst) bottom) ;;
   cap_pos <~ setitem cap_pos ti (vadd (pos inst) top) ;;
   let scale2 := np_diag (rad inst) (rad inst) 1 in
   cap_xf <~ setitem cap_xf bi (matmul (ori inst) scale2) ;;
   cap_xf <~ setitem cap_xf ti (matmul (ori inst) scale2) ;;
   cap_col <~ setitem cap_col bi (col inst) ;;
   cap_col <~ setitem cap_col ti (col inst) ;;
   Ok (cap_pos, cap_xf, cap_col))%py.

(** Lines 102-115: the cap batch. *)
Definition cap_batch (instances : list Instance)
  : result (list vec3 * list mat3 * list rgba) :=
  let M := length instances in
  for_each cap_step (enumerate instances)
    (np_zeros zero3 (2 * M), np_zeros zero33 (2 * M), np_zeros zero4 (2 * M)).

(** Lines 48-63 of [refresh]: the side-wall mesh is generated only while
    its class attribute is still [None]. *)
Definition ensure_side : M Store unit :=
  (sv <- gets (fun s => _side_vertices (cls s)) ;;
   if sv is None then
     segs <- gets (fun s => _segs (self s)) ;;
     g <- lift (side_geometry segs) ;;
     modify (with_cls (set_side g))
   else ret tt)%py.

(** Lines 64-74 of [refresh]: the same for the disk mesh. *)
Definition ensure_disk : M Store unit :=
  (dv <- gets (fun s => _disk_vertices (cls s)) ;;
   if dv is None then
     slices <- gets (fun s => _slices (self s)) ;;
     g <- lift (disk_geometry slices) ;;
     modify (with_cls (set_disk g))
   else ret tt)%py.

Definition ensure_geometry : M Store unit :=
  (ensure_side ;;; ensure_disk)%py.

(** Lines 86-100 and 116-129 of [refresh], for either visual: create it
    when the attribute is [None], else assign its instance arrays. *)
Definition create_or_update (slot : option handle)
    (verts : ClassAttrs -> option (list vec3))
    (inds : ClassAttrs -> option (list face))
    (b : list vec3 * list mat3 * list rgba)
    (record : handle -> Collection -> Collection) : M Store unit :=
  (let '(positions, transforms, colors) := b in
   match slot with
   | None =>
       c <- gets cls ;;
       h <- new_mesh
              {| vertices := verts c; faces := inds c;
                 instance_positions := positions;
                 instance_transforms := transforms;
                 instance_colors := colors |} ;;
       modify (with_self (record h))
   | Some h =>
       update_mesh h (set_instance_positions positions) ;;;
       update_mesh h (set_instance_transforms transforms) ;;;
       update_mesh h (set_instance_colors colors)
   end)%py.

(** Lines 75-129 of [refresh]: build both batches and hand them over. *)
Definition emit (instances : list Instance) : M Store unit :=
  (side <- lift (lateral_batch instances) ;;
   sm <- gets (fun s => _side_mesh (self s)) ;;
   create_or_update sm _side_vertices _side_indices side set_side_mesh ;;;
   caps <- lift (cap_batch instances) ;;
   dm <- gets (fun s => _disk_mesh (self s)) ;;
   create_or_update dm _disk_vertices _disk_indices caps set_disk_mesh)%py.

(** [refresh()] *)
Definition refresh : M Store unit :=
  (instances <- gets (fun s => _instances (self s)) ;;
   let M := length instances in
   if decide (M = 0%nat) then ret tt
   else ensure_geometry ;;; emit instances)%py.

(** *** A program: several collections of the class *)

Record World := {
  w_cls : ClassAttrs;
  w_heap : list InstancedMesh;
  w_objs : list Collection
}.

Definition empty_world : World :=
  {| w_cls := no_geometry; w_heap := []; w_objs := [] |}.

(** A statement of a client program; [cid] names a collection by its
    creation rank. *)
Inductive call :=
| New (cylinder_segments disk_slices : Z)
| AddCylinder (cid : nat) (position : vec3) (radius height : R)
              (color : rgba) (orientation : option mat3)
| Refresh (cid : nat).

(** Run a method of collection [cid]; what the method wrote is kept
    whether it returned or raised. *)
Definition invoke (cid : nat) (m : M Store unit) (w : World)
  : option (result unit * World) :=
  c ← w_objs w !! cid;
  let '(r, s) := m {| cls := w_cls w; heap := w_heap w; self := c |} in
  Some (r, {| w_cls := cls s; w_heap := heap s;
              w_objs := <[cid := self s]> (w_objs w) |}).

Definition exec (c : call) (w : World) : option (result unit * World) :=
  match c with
  | New segs slices =>
      Some (Ok tt, {| w_cls := w_cls w; w_heap := w_heap w;
                      w_objs := w_objs w ++ [init segs slices] |})
  | AddCylinder cid p r h k o => invoke cid (add_cylinder p r h k o) w
  | Refresh cid => invoke cid refresh w
  end.

(** The world after a statement (a statement on a collection that does
    not exist is skipped). *)
Definition step (w : World) (c : call) : World :=
  match exec c w with
  | Some (_, w') => w'
  | None => w
  end.

Definition run (w : World) (p : list call) : World := fold_left step p w.

Definition reachable (w : World) : Prop := exists p, w = run empty_world p.

End Deferred.

(** ** The bulk collection ([newcappedcylindercollection.py]) *)

Module Bulk.

Record Collection := {
  N : nat;
  positions : list vec3;
  radii : list R;
  heights : list R;
  orientations : list mat3;
  colors : list rgba;
  _segs : Z;
  _slices : Z;
  _side_mesh : handle;
  _cap_mesh : handle
}.

(** The state shared by the whole class: its attributes and the visuals. *)
Record Globals := {
  cls : ClassAttrs;
  heap : list InstancedMesh
}.

(** What a method of one collection can touch. *)
Record Store := {
  glob : Globals;
  self : Collection
}.

Definition with_cls (f : ClassAttrs -> ClassAttrs) (g : Globals) : Globals :=
  {| cls := f (cls g); heap := heap g |}.
Definition with_heap (f : list InstancedMesh -> list InstancedMesh) (g : Globals)
  : Globals :=
  {| cls := cls g; heap := f (heap g) |}.
Definition with_glob (f : Globals -> Globals) (s : Store) : Store :=
  {| glob := f (glob s); self := self s |}.
Definition with_self (f : Collection -> Collection) (s : Store) : Store :=
  {| glob := glob s; self := f (self s) |}.

Definition set_positions (v : list vec3) (c : Collection) : Collection :=
  {| N := N c; positions := v; radii := radii c; heights := heights c;
     orientations := orientations c; colors := colors c; _segs := _segs c;
     _slices := _slices c; _side_mesh := _side_mesh c; _cap_mesh := _cap_mesh c |}.
Definition set_radii (v : list R) (c : Collection) : Collection :=
  {| N := N c; positions := positions c; radii := v; heights := heights c;
     orientations := orientations c; colors := colors c; _segs := _segs c;
     _slices := _slices c; _side_mesh := _side_mesh c; _cap_mesh := _cap_mesh c |}.
Definition set_heights (v : list R) (c : Collection) : Collection :=
  {| N := N c; positions := positions c; radii := radii c; heights := v;
     orientations := orientations c; colors := colors c; _segs := _segs c;
     _slices := _slices c; _side_mesh := _side_mesh c; _cap_mesh := _cap_mesh c |}.
Definition set_orientations (v : list mat3) (c : Collection) : Collection :=
  {| N := N c; positions := positions c; radii := radii c; heights := heights c;
     orientations := v; colors := colors c; _segs := _segs c;
     _slices := _slices c; _side_mesh := _side_mesh c; _cap_mesh := _cap_mesh c |}.
Definition set_colors_field (v : list rgba) (c : Collection) : Collection :=
  {| N := N c; positions := positions c; radii := radii c; heights := heights c;
     orientations := orientations c; colors := v; _segs := _segs c;
     _slices := _slices c; _side_mesh := _side_mesh c; _cap_mesh := _cap_mesh c |}.

(** The constructor call [InstancedMesh(...)]: a new visual in the heap. *)
Definition new_mesh (m : InstancedMesh) : M Globals handle :=
  fun g => (Ok (length (heap g)), with_heap (fun h => h ++ [m]) g).

(** Attribute assignments on an existing visual. *)
Definition update_mesh (h : handle) (f : InstancedMesh -> InstancedMesh)
  : M Store unit :=
  modify (with_glob (with_heap (alter f h))).

(** [a.shape == (n, ...)]: only the leading dimension can differ, the
    trailing ones are fixed by the element type. *)
Definition shape_is {A} (a : list A) (n : nat) : bool :=
  bool_decide (length a = n).

(** Lines 112-116 and 179-182: cap positions, all bottoms ([pos0]) and
    all tops ([pos1]). *)
Definition cap_ends (positions : list vec3) (heights : list R)
    (orientations : list mat3) : list vec3 * list vec3 :=
  let axes := map col2 orientations in
  let half_h := map (fun h => h * 0.5) heights in
  let pos0 := zip_with vsub positions (zip_with vscale axes half_h) in
  let pos1 := zip_with vadd positions (zip_with vscale axes half_h) in
  (pos0, pos1).

(** Lines 54-73 of [__init__]: the side-wall mesh is generated only while
    its class attribute is still [None]. *)
Definition ensure_side (cylinder_segments : Z) : M Globals unit :=
  (sv <- gets (fun g => _side_vertices (cls g)) ;;
   if sv is None then
     g <- lift (side_geometry cylinder_segments) ;;
     modify (with_cls (set_side g))
   else ret tt)%py.

(** Lines 94-105 of [__init__]: the same for the disk mesh. *)
Definition ensure_disk (disk_slices : Z) : M Globals unit :=
  (dv <- gets (fun g => _disk_vertices (cls g)) ;;
   if dv is None then
     g <- lift (disk_geometry disk_slices) ;;
     modify (with_cls (set_disk g))
   else ret tt)%py.

(** [__init__(positions, radii, heights, orientations, colors,
    cylinder_segments, disk_slices, parent)] *)
Definition init (positions : list vec3) (radii heights : list R)
    (orientations : list mat3) (colors : list rgba)
    (cylinder_segments disk_slices : Z) : M Globals Collection :=
  (let N := length positions in
   assert_ (shape_is positions N) ;;;
   assert_ (shape_is radii N) ;;;
   assert_ (shape_is heights N) ;;;
   assert_ (shape_is orientations N) ;;;
   assert_ (shape_is colors N) ;;;
   ensure_side cylinder_segments ;;;
   c <- gets cls ;;
   let side_verts := _side_vertices c in
   let side_faces := _side_indices c in
   side_t <- lift (side_transforms N radii heights orientations) ;;
   hs <- new_mesh
           {| vertices := side_verts; faces := side_faces;
              instance_positions := positions;
              instance_transforms := side_t;
              instance_colors := colors |} ;;
   ensure_disk disk_slices ;;;
   c <- gets cls ;;
   let disk_verts := _disk_vertices c in
   let disk_faces := _disk_indices c in
   let '(pos0, pos1) := cap_ends positions heights orientations in
   cap_t <- lift (cap_transforms N radii orientations) ;;
   let cap_positions := pos0 ++ pos1 in
   let cap_xf := cap_t ++ cap_t in
   let cap_colors := colors ++ colors in
   hc <- new_mesh
           {| vertices := disk_verts; faces := disk_faces;
              instance_positions := cap_positions;
              instance_transforms := cap_xf;
              instance_colors := cap_colors |} ;;
   ret {| N := N; positions := positions; radii := radii;
          heights := heights; orientations := orientations;
          colors := colors; _segs := cylinder_segments;
          _slices := disk_slices; _side_mesh := hs; _cap_mesh := hc |})%py.

(** [set_colors(new_colors)] *)
Definition set_colors (new_colors : list rgba) : M Store unit :=
  (n <- gets (fun s => N (self s)) ;;
   assert_ (shape_is new_colors n) ;;;
   modify (with_self (set_colors_field new_colors)) ;;;
   c <- gets self ;;
   update_mesh (_side_mesh c) (set_instance_colors (colors c)) ;;;
   let cap_cols := colors c ++ colors c in
   update_mesh (_cap_mesh c) (set_instance_colors cap_cols))%py.

(** One optional argument of [set_transforms]:
    [if a is not None: assert a.shape == (self.N, ...); self.field = a]. *)
Definition replace_if_given {A} (a : option (list A))
    (setter : list A -> Collection -> Collection) : M Store unit :=
  (match a with
   | Some v =>
       n <- gets (fun s => N (self s)) ;;
       assert_ (shape_is v n) ;;;
       modify (with_self (setter v))
   | None => ret tt
   end)%py.

(** [set_transforms(positions=None, radii=None, heights=None,
    orientations=None)] *)
Definition set_transforms (new_positions : option (list vec3))
    (new_radii new_heights : option (list R))
    (new_orientations : option (list mat3)) : M Store unit :=
  (replace_if_given new_positions set_positions ;;;
   replace_if_given new_radii set_radii ;;;
   replace_if_given new_heights set_heights ;;;
   replace_if_given new_orientations set_orientations ;;;
   c <- gets self ;;
   side_t <- lift (side_transforms (N c) (radii c) (heights c) (orientations c)) ;;
   update_mesh (_side_mesh c) (set_instance_positions (positions c)) ;;;
   update_mesh (_side_mesh c) (set_instance_transforms side_t) ;;;
   let '(p0, p1) := cap_ends (positions c) (heights c) (orientations c) in
   cap_t <- lift (cap_transforms (N c) (radii c) (orientations c)) ;;
   let cap_pos := p0 ++ p1 in
   let cap_trans := cap_t ++ cap_t in
   update_mesh (_cap_mesh c) (set_instance_positions cap_pos) ;;;
   update_mesh (_cap_mesh c) (set_instance_transforms cap_trans))%py.

Definition fresh : Globals := {| cls := no_geometry; heap := [] |}.

End Bulk.

(** ** Vocabulary of the statements

    Per-instance values of section 4.3 of the specification, and what the
    two batches hold for a whole store. *)

(** [orientation . diag(radius, radius, height)] *)
Definition lateral_transform (o : mat3) (r h : R) : mat3 :=
  matmul o (np_diag r r h).
(** [orientation . diag(radius, radius, 1)] *)
Definition cap_transform (o : mat3) (r : R) : mat3 :=
  matmul o (np_diag r r 1).
(** [position - axis . height/2], the axis being column 2 of the orientation. *)
Definition cap_bottom (p : vec3) (o : mat3) (h : R) : vec3 :=
  vsub p (vscale (col2 o) (h / 2)).
(** [position + axis . height/2] *)
Definition cap_top (p : vec3) (o : mat3) (h : R) : vec3 :=
  vadd p (vscale (col2 o) (h / 2)).

(** The three instance arrays of a visual. *)
Definition batch := (list vec3 * list mat3 * list rgba)%type.

Definition batch_of (m : InstancedMesh) : batch :=
  (instance_positions m, instance_transforms m, instance_colors m).

(** Assigning the three instance arrays of a visual, geometry untouched. *)
Definition with_batch (b : batch) (m : InstancedMesh) : InstancedMesh :=
  let '(p, x, c) := b in
  set_instance_colors c (set_instance_transforms x (set_instance_positions p m)).

(** The lateral batch of a store: one entry per instance, in store order. *)
Definition lateral_of (instances : list Deferred.Instance) : batch :=
  (map Deferred.pos instances,
   map (fun i => lateral_transform (Deferred.ori i) (Deferred.rad i) (Deferred.ht i))
       instances,
   map Deferred.col instances).

(** The cap batch of a store: per instance its bottom then its top. *)
Definition caps_of (instances : list Deferred.Instance) : batch :=
  (flat_map (fun i =>
     [cap_bottom (Deferred.pos i) (Deferred.ori i) (Deferred.ht i);
      cap_top (Deferred.pos i) (Deferred.ori i) (Deferred.ht i)]) instances,
   flat_map (fun i =>
     [cap_transform (Deferred.ori i) (Deferred.rad i);
      cap_transform (Deferred.ori i) (Deferred.rad i)]) instances,
   flat_map (fun i => [Deferred.col i; Deferred.col i]) instances).

(** A visual with given geometry and instance arrays. *)
Definition mesh_of (v : option (list vec3)) (f : option (list face)) (b : batch)
  : InstancedMesh :=
  let '(p, x, c) := b in
  {| vertices := v; faces := f; instance_positions := p;
     instance_transforms := x; instance_colors := c |}.

(** The lateral batch of the bulk arrays: entry [k] for instance [k]. *)
Definition bulk_lateral (positions : list vec3) (radii heights : list R)
    (orientations : list mat3) (colors : list rgba) : batch :=
  (positions,
   zip_with (fun o rh => lateral_transform o (fst rh) (snd rh))
            orientations (zip radii heights),
   colors).

(** The cap batch of the bulk arrays: all bottoms, then all tops. *)
Definition bulk_caps (positions : list vec3) (radii heights : list R)
    (orientations : list mat3) (colors : list rgba) : batch :=
  (zip_with (fun p oh => cap_bottom p (fst oh) (snd oh))
            positions (zip orientations heights)
   ++ zip_with (fun p oh => cap_top p (fst oh) (snd oh))
               positions (zip orientations heights),
   zip_with cap_transform orientations radii
   ++ zip_with cap_transform orientations radii,
   colors ++ colors).




(** ** Worlds of deferred collections *)

(** A collection is unbound, or bound to two distinct live visuals while
    it holds an instance and the class holds both unit meshes. *)
Definition bound_ok (w : Deferred.World) (c : Deferred.Collection) : Prop :=
  match Deferred._side_mesh c, Deferred._disk_mesh c with
  | None, None => True
  | Some hs, Some hd =>
      hs <> hd /\
      (hs < length (Deferred.w_heap w))%nat /\
      (hd < length (Deferred.w_heap w))%nat /\
      Deferred._instances c <> [] /\
      is_Some (_side_vertices (Deferred.w_cls w)) /\
      is_Some (_disk_vertices (Deferred.w_cls w))
  | _, _ => False
  end.

Definition well_formed (w : Deferred.World) : Prop :=
  forall cid c, Deferred.w_objs w !! cid = Some c -> bound_ok w c.

(** The store a method of collection [c] starts from in world [w]. *)
Definition store_of (w : Deferred.World) (c : Deferred.Collection) : Deferred.Store :=
  {| Deferred.cls := Deferred.w_cls w; Deferred.heap := Deferred.w_heap w;
     Deferred.self := c |}.

Section RefreshCases.
Import Deferred.

(** What [refresh] does to a world, case by case. *)
Inductive refresh_case (w : World) (cid : nat) (c : Collection)
  : result unit -> World -> Prop :=
| rc_empty :
    _instances c = [] ->
    refresh_case w cid c (Ok tt) w
| rc_raise (k : ClassAttrs) :
    _instances c <> [] ->
    ensure_geometry (store_of w c)
    = (Raise ValueError, {| cls := k; heap := w_heap w; self := c |}) ->
    refresh_case w cid c (Raise ValueError)
      {| w_cls := k; w_heap := w_heap w; w_objs := w_objs w |}
| rc_create (k : ClassAttrs) :
    _instances c <> [] ->
    _side_mesh c = None -> _disk_mesh c = None ->
    ensure_geometry (store_of w c)
    = (Ok tt, {| cls := k; heap := w_heap w; self := c |}) ->
    refresh_case w cid c (Ok tt)
      {| w_cls := k;
         w_heap := w_heap w ++
           [mesh_of (_side_vertices k) (_side_indices k) (lateral_of (_instances c));
            mesh_of (_disk_vertices k) (_disk_indices k) (caps_of (_instances c))];
         w_objs := <[cid := set_disk_mesh (S (length (w_heap w)))
                             (set_side_mesh (length (w_heap w)) c)]> (w_objs w) |}
| rc_update (hs hd : handle) :
    _instances c <> [] ->
    _side_mesh c = Some hs -> _disk_mesh c = Some hd ->
    refresh_case w cid c (Ok tt)
      {| w_cls := w_cls w;
         w_heap := alter (with_batch (caps_of (_instances c))) hd
                     (alter (with_batch (lateral_of (_instances c))) hs (w_heap w));
         w_objs := w_objs w |}.

End RefreshCases.

(** ** Concrete scenarios

    The script at the end of [cappedcylindercollection.py]: three cylinders,
    the second turned a quarter about X, the third about Y, then one
    [refresh]. *)

Definition Rx90 : mat3 := M3 (V3 1 0 0) (V3 0 0 (-1)) (V3 0 1 0).
Definition Ry90 : mat3 := M3 (V3 0 0 1) (V3 0 1 0) (V3 (-1) 0 0).





(** The script at the end of [newcappedcylindercollection.py]. *)
Definition bulk_positions : list vec3 := [V3 (-2) 0 0; V3 0 0 0; V3 2 0 0].
Definition bulk_radii : list R := [0.3; 0.2; 0.4].
Definition bulk_heights : list R := [1.5; 2; 1].
Definition bulk_orientations : list mat3 := [np_eye; Rx90; Ry90].
Definition bulk_colors : list rgba := [RGBA 1 0 0 1; RGBA 0 1 0 1; RGBA 0 0 1 1].

Definition bulk_main : result Bulk.Collection * Bulk.Globals :=
  Bulk.init bulk_positions bulk_radii bulk_heights bulk_orientations
    bulk_colors 32 32 Bulk.fresh.

(** ** Statements the code does not meet, and where *)

(** C8 as stated, for the first refresh of a program whose only collection
    was built with the given counts and holds one cylinder: generation
    fails when a count is below 3. *)
Definition generation_rejects (segs slices : Z) : Prop :=
  (segs < 3 \/ slices < 3)%Z ->
  exists e w',
    Deferred.exec (Deferred.Refresh 0)
      (Deferred.run Deferred.empty_world
         [Deferred.New segs slices;
          Deferred.AddCylinder 0 (V3 0 0 0) 1 1 (RGBA 1 1 1 1) None])
    = Some (Raise e, w').


(** Two collections with different counts, one instance each, both
    refreshed. *)
Definition two_collections : list Deferred.call :=
  [Deferred.New 32 32; Deferred.New 8 8;
   Deferred.AddCylinder 0 (V3 0 0 0) 1 1 (RGBA 1 0 0 1) None;
   Deferred.AddCylinder 1 (V3 3 0 0) 1 1 (RGBA 0 1 0 1) None;
   Deferred.Refresh 0; Deferred.Refresh 1].

(** ** More vocabulary: visuals in step with the stored arrays *)

(** The visuals of a bulk collection mirror its stored arrays: the five
    arrays have [N] rows, the two handles name two different visuals, and
    these hold the lateral and the cap batch of the arrays. *)
Definition bulk_synced (s : Bulk.Store) : Prop :=
  let c := Bulk.self s in
  length (Bulk.positions c) = Bulk.N c /\
  length (Bulk.radii c) = Bulk.N c /\
  length (Bulk.heights c) = Bulk.N c /\
  length (Bulk.orientations c) = Bulk.N c /\
  length (Bulk.colors c) = Bulk.N c /\
  Bulk._side_mesh c <> Bulk._cap_mesh c /\
  exists ms mc,
    Bulk.heap (Bulk.glob s) !! Bulk._side_mesh c = Some ms /\
    Bulk.heap (Bulk.glob s) !! Bulk._cap_mesh c = Some mc /\
    batch_of ms
    = bulk_lateral (Bulk.positions c) (Bulk.radii c) (Bulk.heights c)
        (Bulk.orientations c) (Bulk.colors c) /\
    batch_of mc
    = bulk_caps (Bulk.positions c) (Bulk.radii c) (Bulk.heights c)
        (Bulk.orientations c) (Bulk.colors c).

(** The visuals a deferred collection is bound to. *)
Definition owned (c : Deferred.Collection) : list handle :=
  match Deferred._side_mesh c with Some h => [h] | None => [] end ++
  match Deferred._disk_mesh c with Some h => [h] | None => [] end.

(** A collection holds both handles. *)
Definition is_bound (c : Deferred.Collection) : bool :=
  match Deferred._side_mesh c, Deferred._disk_mesh c with
  | Some _, Some _ => true
  | _, _ => false
  end.

(** Every visual belongs to one collection, and a bound collection's
    visuals carry the geometry held by the class. *)
Definition accounted (w : Deferred.World) : Prop :=
  flat_map owned (Deferred.w_objs w) ≡ₚ seq 0 (length (Deferred.w_heap w)) /\
  forall cid c hs hd,
    Deferred.w_objs w !! cid = Some c ->
    Deferred._side_mesh c = Some hs -> Deferred._disk_mesh c = Some hd ->
    exists ms md,
      Deferred.w_heap w !! hs = Some ms /\ Deferred.w_heap w !! hd = Some md /\
      vertices ms = _side_vertices (Deferred.w_cls w) /\
      faces ms = _side_indices (Deferred.w_cls w) /\
      vertices md = _disk_vertices (Deferred.w_cls w) /\
      faces md = _disk_indices (Deferred.w_cls w).

(** How many collections hold both handles. *)
Definition bound_count (l : list Deferred.Collection) : nat :=
  length (List.filter is_bound l).

(** The collection a statement addresses, if any. *)
Definition target (k : Deferred.call) : option nat :=
  match k with
  | Deferred.New _ _ => None
  | Deferred.AddCylinder cid _ _ _ _ _ => Some cid
  | Deferred.Refresh cid => Some cid
  end.

(** A short program: one collection of three segments and three slices,
    one cylinder, one [refresh]. *)
Definition small_calls : list Deferred.call :=
  [Deferred.New 3 3;
   Deferred.AddCylinder 0 (V3 0 0 0) 1 2 (RGBA 1 0 0 1) None;
   Deferred.Refresh 0].

Definition small_world : Deferred.World :=
  Deferred.run Deferred.empty_world small_calls.

(** The stored arrays after [set_transforms]: each array that was given
    replaces the stored one. *)
Definition with_transforms (new_positions : option (list vec3))
    (new_radii new_heights : option (list R))
    (new_orientations : option (list mat3)) (c : Bulk.Collection)
  : Bulk.Collection :=
  let c1 := match new_positions with Some v => Bulk.set_positions v c | None => c end in
  let c2 := match new_radii with Some v => Bulk.set_radii v c1 | None => c1 end in
  let c3 := match new_heights with Some v => Bulk.set_heights v c2 | None => c2 end in
  match new_orientations with Some v => Bulk.set_orientations v c3 | None => c3 end.

(** An optional array has [n] rows when it is given. *)
Definition rows_if_given {A} (a : option (list A)) (n : nat) : Prop :=
  match a with Some v => length v = n | None => True end.

(** ** The eager collection ([cappedcylinderclasstest.py])

    [__init__] builds the two visuals at once, with no instance;
    [add_cylinder] queues a descriptor without orientation and hands all
    instance arrays to the visuals again. *)

(** [a[:, i, i] = vals] on an array of matrices: row [k] gets [vals[k]];
    a single value is broadcast to every row; any other length is a
    [ValueError]. *)
Definition assign_each {A} (upd : R -> A -> A) (a : list A) (vals : list R)
  : result (list A) :=
  if decide (length vals = length a) then
    Ok (zip_with (fun x v => upd v x) a vals)
  else
    match vals with
    | [v] => Ok (map (upd v) a)
    | _ => Raise ValueError
    end.

(** [A[0, 0] = v], [A[1, 1] = v], [A[2, 2] = v] *)
Definition set00 (v : R) (A : mat3) : mat3 :=
  M3 (V3 v (vy (row0 A)) (vz (row0 A))) (row1 A) (row2 A).
Definition set11 (v : R) (A : mat3) : mat3 :=
  M3 (row0 A) (V3 (vx (row1 A)) v (vz (row1 A))) (row2 A).
Definition set22 (v : R) (A : mat3) : mat3 :=
  M3 (row0 A) (row1 A) (V3 (vx (row2 A)) (vy (row2 A)) v).

(** [np.repeat(np.eye(3)[None, ...], count, axis=0)] with the three
    diagonal assignments that follow it in the eager class and in the
    script [cappedcylinderstest.py]. *)
Definition diag_transforms (count : nat) (radii heights : list R)
  : result (list mat3) :=
  (let t := replicate count np_eye in
   t <~ assign_each set00 t radii ;;
   t <~ assign_each set11 t radii ;;
   assign_each set22 t heights)%py.

Module Eager.

(** A queued instance: the tuple [(position, radius, height, color)]. *)
Record Instance := {
  pos : vec3;
  rad : R;
  ht : R;
  col : rgba
}.

(** A visual as this file uses it: [instance_colors] is not passed to
    the constructor and is assigned later. *)
Record Visual := {
  v_vertices : option (list vec3);
  v_faces : option (list face);
  v_positions : list vec3;
  v_transforms : list mat3;
  v_colors : option (list rgba)
}.

Record Collection := {
  _instances : list Instance;
  _side_mesh : handle;
  _disk_mesh : handle
}.

Record Globals := {
  cls : ClassAttrs;
  heap : list Visual
}.

Record Store := {
  glob : Globals;
  self : Collection
}.

Definition with_cls (f : ClassAttrs -> ClassAttrs) (g : Globals) : Globals :=
  {| cls := f (cls g); heap := heap g |}.
Definition with_heap (f : list Visual -> list Visual) (g : Globals) : Globals :=
  {| cls := cls g; heap := f (heap g) |}.
Definition with_glob (f : Globals -> Globals) (s : Store) : Store :=
  {| glob := f (glob s); self := self s |}.
Definition with_self (f : Collection -> Collection) (s : Store) : Store :=
  {| glob := glob s; self := f (self s) |}.

Definition append_instance (i : Instance) (c : Collection) : Collection :=
  {| _instances := _instances c ++ [i]; _side_mesh := _side_mesh c;
     _disk_mesh := _disk_mesh c |}.

Definition set_positions (v : list vec3) (m : Visual) : Visual :=
  {| v_vertices := v_vertices m; v_faces := v_faces m; v_positions := v;
     v_transforms := v_transforms m; v_colors := v_colors m |}.
Definition set_transforms (v : list mat3) (m : Visual) : Visual :=
  {| v_vertices := v_vertices m; v_faces := v_faces m;
     v_positions := v_positions m; v_transforms := v; v_colors := v_colors m |}.
Definition set_colors (v : list rgba) (m : Visual) : Visual :=
  {| v_vertices := v_vertices m; v_faces := v_faces m;
     v_positions := v_positions m; v_transforms := v_transforms m;
     v_colors := Some v |}.

(** The constructor call [InstancedMesh(...)]: a new visual in the heap. *)
Definition new_mesh (m : Visual) : M Globals handle :=
  fun g => (Ok (length (heap g)), with_heap (fun h => h ++ [m]) g).

(** Attribute assignments on an existing visual. *)
Definition update_mesh (h : handle) (f : Visual -> Visual) : M Store unit :=
  modify (with_glob (with_heap (alter f h))).

(** Lines 19-46 of [__init__]. *)
Definition ensure_side (cylinder_segments : Z) : M Globals unit :=
  (sv <- gets (fun g => _side_vertices (cls g)) ;;
   if sv is None then
     g <- lift (side_geometry cylinder_segments) ;;
     modify (with_cls (set_side g))
   else ret tt)%py.

(** Lines 49-68 of [__init__]. *)
Definition ensure_disk (disk_slices : Z) : M Globals unit :=
  (dv <- gets (fun g => _disk_vertices (cls g)) ;;
   if dv is None then
     g <- lift (disk_geometry disk_slices) ;;
     modify (with_cls (set_disk g))
   else ret tt)%py.

(** [__init__(parent, cylinder_segments, disk_slices)] *)
Definition init (cylinder_segments disk_slices : Z) : M Globals Collection :=
  (ensure_side cylinder_segments ;;;
   ensure_disk disk_slices ;;;
   let empty_positions := np_zeros zero3 0 in
   let empty_transforms := np_zeros zero33 0 in
   c <- gets cls ;;
   hs <- new_mesh
           {| v_vertices := _side_vertices c; v_faces := _side_indices c;
              v_positions := empty_positions;
              v_transforms := empty_transforms; v_colors := None |} ;;
   c <- gets cls ;;
   hd <- new_mesh
           {| v_vertices := _disk_vertices c; v_faces := _disk_indices c;
              v_positions := empty_positions;
              v_transforms := empty_transforms; v_colors := None |} ;;
   ret {| _instances := []; _side_mesh := hs; _disk_mesh := hd |})%py.

(** One turn of the loop of lines 134-145. *)
Definition cap_step (e : nat * Instance)
    (acc : list vec3 * list mat3 * list rgba)
  : result (list vec3 * list mat3 * list rgba) :=
  (let '(idx, inst) := e in
   let '(cap_positions, cap_transforms, cap_colors) := acc in
   let bi := (2 * idx)%nat in
   let ti := (2 * idx + 1)%nat in
   cap_positions <~ setitem cap_positions bi
                      (vadd (pos inst) (V3 0 0 (-0.5 * ht inst))) ;;
   cap_positions <~ setitem cap_positions ti
                      (vadd (pos inst) (V3 0 0 (0.5 * ht inst))) ;;
   cap_transforms <~ setitem cap_transforms bi (np_diag (rad inst) (rad inst) 1) ;;
   cap_transforms <~ setitem cap_transforms ti (np_diag (rad inst) (rad inst) 1) ;;
   cap_colors <~ setitem cap_colors bi (col inst) ;;
   cap_colors <~ setitem cap_colors ti (col inst) ;;
   Ok (cap_positions, cap_transforms, cap_colors))%py.

(** [_refresh_instances()] *)
Definition _refresh_instances : M Store unit :=
  (instances <- gets (fun s => _instances (self s)) ;;
   let count := length instances in
   side_positions <- lift (np_vstack (map pos instances)) ;;
   let radii_arr := map rad instances in
   let heights_arr := map ht instances in
   side_colors <- lift (np_vstack (map col instances)) ;;
   side_transforms <- lift (diag_transforms count radii_arr heights_arr) ;;
   sm <- gets (fun s => _side_mesh (self s)) ;;
   update_mesh sm (set_positions side_positions) ;;;
   update_mesh sm (set_transforms side_transforms) ;;;
   update_mesh sm (set_colors side_colors) ;;;
   caps <- lift (for_each cap_step (enumerate instances)
                   (np_zeros zero3 (2 * count),
                    replicate (2 * count) np_eye,
                    np_zeros zero4 (2 * count))) ;;
   let '(cap_positions, cap_transforms, cap_colors) := caps in
   dm <- gets (fun s => _disk_mesh (self s)) ;;
   update_mesh dm (set_positions cap_positions) ;;;
   update_mesh dm (set_transforms cap_transforms) ;;;
   update_mesh dm (set_colors cap_colors))%py.

(** [add_cylinder(position, radius, height, color)] *)
Definition add_cylinder (position : vec3) (radius height : R) (color : rgba)
  : M Store unit :=
  (modify (with_self (append_instance
     {| pos := position; rad := radius; ht := height; col := color |})) ;;;
   _refresh_instances)%py.


(** The three instance arrays of a visual, once colors were assigned. *)
Definition batch_of (m : Visual) : option batch :=
  c ← v_colors m; Some (v_positions m, v_transforms m, c).

End Eager.

(** The descriptor of the deferred collection for a cylinder queued
    without orientation. *)
Definition upright (i : Eager.Instance) : Deferred.Instance :=
  {| Deferred.pos := Eager.pos i; Deferred.rad := Eager.rad i;
     Deferred.ht := Eager.ht i; Deferred.col := Eager.col i;
     Deferred.ori := np_eye |}.


(** The descriptors of the rows of four arrays. *)
Definition rows_of (positions : list vec3) (radii heights : list R)
    (colors : list rgba) : list Eager.Instance :=
  map (fun row : vec3 * R * R * rgba =>
         let '(p, r, h, c) := row in
         {| Eager.pos := p; Eager.rad := r; Eager.ht := h; Eager.col := c |})
      (zip (zip (zip positions radii) heights) colors).



(** The script [cappedcylinderstest.py], from its four random arrays
    ([positions] as it is after line 43) to the instance arrays of its
    two visuals. *)
Module Script.

(** One turn of the loop of lines 60-67. *)
Definition cap_step (e : nat * (vec3 * R * R * rgba))
    (acc : list vec3 * list mat3 * list rgba)
  : result (list vec3 * list mat3 * list rgba) :=
  (let '(i, (pos, r, h, col)) := e in
   let '(cap_positions, cap_transforms, cap_colors) := acc in
   let bi := (2 * i)%nat in
   let ti := (2 * i + 1)%nat in
   cap_positions <~ setitem cap_positions bi (vadd pos (V3 0 0 (-0.5 * h))) ;;
   cap_positions <~ setitem cap_positions ti (vadd pos (V3 0 0 (0.5 * h))) ;;
   cap_transforms <~ setitem cap_transforms bi (np_diag r r 1) ;;
   cap_transforms <~ setitem cap_transforms ti (np_diag r r 1) ;;
   cap_colors <~ setitem cap_colors bi col ;;
   cap_colors <~ setitem cap_colors ti col ;;
   Ok (cap_positions, cap_transforms, cap_colors))%py.

(** Lines 49-67: the side batch and the cap batch for [M] instances. *)
Definition batches (M : nat) (positions : list vec3) (radii heights : list R)
    (colors : list rgba) : result (batch * batch) :=
  (cyl_transforms <~ diag_transforms M radii heights ;;
   let rows := zip (zip (zip positions radii) heights) colors in
   caps <~ for_each cap_step (zip (seq 0 (length rows)) rows)
             (np_zeros zero3 (2 * M), replicate (2 * M) np_eye,
              np_zeros zero4 (2 * M)) ;;
   Ok ((positions, cyl_transforms, colors), caps))%py.

End Script.

(** ** Picking by ID color ([gpucolorcollisiontest.py])

    The spheres are drawn once with a color that encodes their number,
    one pixel is read back and decoded.  The render pass is the canvas's
    business: it is a function from the instance colors and a framebuffer
    position to the three bytes of a pixel. *)

Module Picking.


(** Lines 47-54: the ID color of sphere [i]. *)
Definition id_color (i : nat) : rgba :=
  let idx := (Z.of_nat i + 1)%Z in
  let r := IZR (Z.land idx 255) / 255 in
  let g := IZR (Z.land (Z.shiftr idx 8) 255) / 255 in
  let b := IZR (Z.land (Z.shiftr idx 16) 255) / 255 in
  RGBA r g b 1.


(** Line 108: the pick index of three sampled bytes. *)
Definition pick_id (sampled : Z * Z * Z) : Z :=
  let '(s0, s1, s2) := sampled in
  (s0 + Z.shiftl s1 8 + Z.shiftl s2 16 - 1)%Z.

Definition blue : rgba := RGBA 0.5 0.5 1 1.

(** What the handlers read and write: the module globals [_click],
    [selected] and [highlight_colors], and the instance colors of the
    visual. *)
Record State := {
  _click : option (R * R);
  selected : list bool;
  highlight_colors : list rgba;
  instance_colors : list rgba
}.


(** Lines 25-42: [N] blue spheres, none selected. *)
Definition initial (N : nat) : State :=
  {| _click := None; selected := replicate N false;
     highlight_colors := replicate N blue;
     instance_colors := replicate N blue |}.

Definition set_click (c : option (R * R)) (s : State) : State :=
  {| _click := c; selected := selected s;
     highlight_colors := highlight_colors s;
     instance_colors := instance_colors s |}.
Definition set_instance_colors (v : list rgba) (s : State) : State :=
  {| _click := _click s; selected := selected s;
     highlight_colors := highlight_colors s; instance_colors := v |}.

(** [on_mouse_press(event)] *)
Definition on_mouse_press (pos : R * R) : M State unit :=
  modify (set_click (Some pos)).



End Picking.


(** ** Picking by ray casting ([spherecollisiontest.py])

    The click is unprojected by the scene transform, which is outside
    the repository: the handler is embedded from the two unprojected
    points [p0] (near plane) and [p1] (far plane) on. *)

Module RayPick.

(** [v / np.linalg.norm(v)] *)
Definition normalize (v : vec3) : vec3 := vscale v (/ sqrt (dot v v)).

(** Lines 43-46: [disc] for the sphere at [C]. *)
Definition disc (radius : R) (origin direction C : vec3) : R :=
  let L := vsub origin C in
  let b := dot direction L in
  let c := dot L L - radius ^ 2 in
  b * b - c.

(** Line 49: [t_hit] for the sphere at [C]. *)
Definition t_hit (radius : R) (origin direction C : vec3) : R :=
  let L := vsub origin C in
  let b := dot direction L in
  - b - sqrt (disc radius origin direction C).

(** One turn of the loop of lines 41-52 on [(hit_index, min_t)];
    [min_t = None] stands for [np.inf]. *)
Definition ray_step (radius : R) (origin direction : vec3)
    (acc : option nat * option R) (e : nat * vec3) : option nat * option R :=
  let '(i, C) := e in
  if Rlt_dec (disc radius origin direction C) 0 then acc
  else
    let t := t_hit radius origin direction C in
    if Rlt_dec 0 t then
      match snd acc with
      | None => (Some i, Some t)
      | Some min_t => if Rlt_dec t min_t then (Some i, Some t) else acc
      end
    else acc.

(** Lines 39-52 *)
Definition ray_test (radius : R) (origin direction : vec3)
    (centers : list vec3) : option nat * option R :=
  fold_left (ray_step radius origin direction) (enumerate centers) (None, None).

(** The red sphere: where it is and whether it is shown. *)
Record Highlight := {
  translate : vec3;
  visible : bool
}.

(** [on_mouse_press(event)], after the unprojection. *)
Definition on_mouse_press (radius : R) (centers : list vec3) (p0 p1 : vec3)
    (h : Highlight) : result Highlight :=
  (let origin := p0 in
   let direction := normalize (vsub p1 origin) in
   match fst (ray_test radius origin direction centers) with
   | Some hit_index =>
       c <~ getitem centers hit_index ;;
       Ok {| translate := c; visible := true |}
   | None => Ok {| translate := translate h; visible := false |}
   end)%py.

End RayPick.



(** The point of the ray at parameter [t]. *)
Definition ray_point (origin direction : vec3) (t : R) : vec3 :=
  vadd origin (vscale direction t).

(** ** Voltage display ([vispyneuronthreadplot.py],
    [vispyneuronthreadtest.py]) *)

Module Plot.

(** [np.clip(x, lo, hi)] *)
Definition np_clip (x lo hi : R) : R := Rmin (Rmax x lo) hi.

(** Lines 126-128 of [update_frame], lines 108-110 of [on_data]: the
    color filter for a membrane voltage. *)
Definition voltage_filter (v : R) : rgba :=
  let norm := np_clip ((v + 80) / 130) 0 1 in
  let r := norm in
  let b := 1 - norm in
  RGBA r 0.2 b 1.

(** What [update_frame] reads and writes. *)
Record Window := {
  trace_t : list R;
  trace_V : list R;
  color_filter : rgba;
  timer_active : bool
}.

(** [MainWindow.__init__] *)
Definition initial : Window :=
  {| trace_t := []; trace_V := []; color_filter := RGBA 0.3 0.5 0.8 1;
     timer_active := true |}.

(** [l.pop(0)] *)
Definition pop0 {A} (l : list A) : result (list A) :=
  match l with
  | [] => Raise IndexError
  | _ :: rest => Ok rest
  end.

(** Line 134: how many samples the traces keep. *)
Definition trace_limit : nat := 5000.

(** [update_frame()], from the values it reads off the worker. *)
Definition update_frame (t v : R) (running : bool) : M Window unit :=
  (modify (fun w =>
     {| trace_t := trace_t w ++ [t]; trace_V := trace_V w ++ [v];
        color_filter := voltage_filter v; timer_active := timer_active w |}) ;;;
   n <- gets (fun w => length (trace_t w)) ;;
   (if decide (trace_limit < n)%nat then
      tt' <- gets trace_t ;;
      tt' <- lift (pop0 tt') ;;
      modify (fun w =>
        {| trace_t := tt'; trace_V := trace_V w;
           color_filter := color_filter w; timer_active := timer_active w |}) ;;;
      tv <- gets trace_V ;;
      tv <- lift (pop0 tv) ;;
      modify (fun w =>
        {| trace_t := trace_t w; trace_V := tv;
           color_filter := color_filter w; timer_active := timer_active w |})
    else ret tt) ;;;
   if running then ret tt
   else
     modify (fun w =>
       {| trace_t := trace_t w; trace_V := trace_V w;
          color_filter := color_filter w; timer_active := false |}))%py.

(** The timer: it calls [update_frame] while it is active. *)
Fixpoint frames (samples : list (R * R * bool)) : M Window unit :=
  match samples with
  | [] => ret tt
  | (t, v, running) :: rest =>
      (active <- gets timer_active ;;
       if active then update_frame t v running ;;; frames rest
       else ret tt)%py
  end.

(** [NeuronWorker.run] of [vispyneuronthreadtest.py], lines 51-57: one
    turn of the loop on [count]; the flag tells whether the turn emits. *)
Definition emit_step (count : nat) : nat * bool :=
  let count := (count + 1)%nat in
  if decide (5 <= count)%nat then (0%nat, true) else (count, false).

(** The turns of the loop that emit, among turns [1 .. n]. *)
Fixpoint emissions (count : nat) (n : nat) (turn : nat) : list nat :=
  match n with
  | O => []
  | S n' =>
      let '(count', emit) := emit_step count in
      (if emit then [turn] else []) ++ emissions count' n' (S turn)
  end.

End Plot.

(** The samples that reach [update_frame]: all up to the first one read
    while the worker was no longer running. *)
Fixpoint delivered (samples : list (R * R * bool)) : list (R * R * bool) :=
  match samples with
  | [] => []
  | (t, v, running) :: rest =>
      (t, v, running) :: (if running then delivered rest else [])
  end.

(** The last [n] entries of a list. *)
Definition last_n {A} (n : nat) (l : list A) : list A :=
  drop (length l - n) l.

(** * Properties *)

(** ** Loops over arrays *)

Section Loops.
Context {A : Type}.

Lemma getitem_Some (a : list A) (i : nat) (x : A) :
  a !! i = Some x -> getitem a i = Ok x.
Proof. unfold getitem. intros ->. reflexivity. Qed.

Lemma setitem_lt (a : list A) (i : nat) (x : A) :
  (i < length a)%nat -> setitem a i x = Ok (<[i:=x]> a).
Proof. unfold setitem. intros H. destruct (decide _); [reflexivity | lia]. Qed.

(** Writing the first free cell of a partly filled array. *)
Lemma setitem_frontier (done : list A) (z x : A) (rest : list A) :
  setitem (done ++ z :: rest) (length done) x = Ok ((done ++ [x]) ++ rest).
Proof.
  rewrite setitem_lt by (rewrite length_app; simpl; lia).
  rewrite insert_app_r_alt by lia.
  rewrite Nat.sub_diag. simpl. rewrite <- app_assoc. reflexivity.
Qed.

Lemma for_each_ext {I B} (f g : I -> B -> result B) (items : list I) (acc : B) :
  (forall i b, f i b = g i b) -> for_each f items acc = for_each g items acc.
Proof.
  intros E. revert acc. induction items as [|i items IH]; intros acc; simpl.
  - reflexivity.
  - rewrite E. destruct (g i acc); simpl; [apply IH | reflexivity].
Qed.

(** [out = zeros(n); for k in range(n): out[k] = g k] fills [out] with
    [g 0 .. g (n-1)], provided each [g k] can be computed. *)
Lemma for_each_fill (f : nat -> result A) (g : nat -> A) (z : A) (n : nat) :
  (forall k, (k < n)%nat -> f k = Ok (g k)) ->
  for_each (fun k out => rbind (f k) (setitem out k)) (seq 0 n) (replicate n z)
  = Ok (map g (seq 0 n)).
Proof.
  intros Hf.
  assert (G : forall m i, (i + m = n)%nat ->
    for_each (fun k out => rbind (f k) (setitem out k)) (seq i m)
             (map g (seq 0 i) ++ replicate m z)
    = Ok (map g (seq 0 n))).
  { induction m as [|m IH]; intros i Hi; simpl.
    - rewrite app_nil_r. replace i with n by lia. reflexivity.
    - rewrite Hf by lia. simpl.
      replace i with (length (map g (seq 0 i))) at 2
        by (rewrite length_map, length_seq; reflexivity).
      rewrite setitem_frontier. simpl.
      replace (map g (seq 0 i) ++ [g i]) with (map g (seq 0 (S i))).
      + apply IH. lia.
      + rewrite seq_S, map_app. reflexivity. }
  apply (G n 0%nat). lia.
Qed.

(** Chunks of two: entries [2k] and [2k+1] of a pairwise flattening. *)
Lemma lookup_flat_map_pair {B} (a b : B -> A) (l : list B) (k : nat) (x : B) :
  l !! k = Some x ->
  flat_map (fun y => [a y; b y]) l !! (2 * k)%nat = Some (a x) /\
  flat_map (fun y => [a y; b y]) l !! (2 * k + 1)%nat = Some (b x).
Proof.
  revert k. induction l as [|y l IH]; intros k Hk; [discriminate|].
  destruct k as [|k]; simpl in *.
  - injection Hk as ->. split; reflexivity.
  - replace (k + S (k + 0))%nat with (S (2 * k)) by lia.
    replace (k + S (k + 0) + 1)%nat with (S (2 * k + 1)) by lia.
    simpl. apply IH, Hk.
Qed.

Lemma length_flat_map_pair {B} (a b : B -> A) (l : list B) :
  length (flat_map (fun y => [a y; b y]) l) = (2 * length l)%nat.
Proof. induction l as [|y l IH]; simpl; [reflexivity | rewrite IH; lia]. Qed.

(** [for i in l: idx.append(a i); idx.append(b i)] *)
Lemma fold_left_append_pair {B} (a b : B -> A) (l : list B) (init : list A) :
  fold_left (fun idx i => (idx ++ [a i]) ++ [b i]) l init
  = init ++ flat_map (fun i => [a i; b i]) l.
Proof.
  revert init. induction l as [|y l IH]; intros init; simpl.
  - rewrite app_nil_r. reflexivity.
  - rewrite IH, <- !app_assoc. reflexivity.
Qed.

End Loops.

(** ** The transform loops *)

Lemma side_transforms_ok (n : nat) (radii heights : list R) (oris : list mat3) :
  length radii = n -> length heights = n -> length oris = n ->
  side_transforms n radii heights oris
  = Ok (zip_with (fun o rh => matmul o (np_diag (fst rh) (fst rh) (snd rh)))
                 oris (zip radii heights)).
Proof.
  intros Hr Hh Ho. unfold side_transforms, np_zeros.
  set (f := fun k : nat =>
    (r <~ getitem radii k ;; h <~ getitem heights k ;; o <~ getitem oris k ;;
     Ok (matmul o (np_diag r r h)))%py).
  rewrite (for_each_ext _ (fun k out => rbind (f k) (setitem out k))).
  2:{ intros k out. unfold f.
      destruct (getitem radii k); simpl; [|reflexivity].
      destruct (getitem heights k); simpl; [|reflexivity].
      destruct (getitem oris k); reflexivity. }
  rewrite (for_each_fill f
    (fun k => matmul (default zero33 (oris !! k))
                (np_diag (default 0 (radii !! k)) (default 0 (radii !! k))
                         (default 0 (heights !! k))))).
  - f_equal. apply list_eq. intros i.
    rewrite list_lookup_fmap, lookup_zip_with.
    destruct (decide (i < n)%nat) as [Hi|Hi].
    + rewrite lookup_seq_lt by lia. simpl.
      destruct (lookup_lt_is_Some_2 oris i) as [o Eo]; [lia|].
      destruct (lookup_lt_is_Some_2 radii i) as [r Er]; [lia|].
      destruct (lookup_lt_is_Some_2 heights i) as [h Eh]; [lia|].
      assert (Ez : zip radii heights !! i = Some (r, h)).
      { rewrite lookup_zip_with, Er, Eh. reflexivity. }
      rewrite Eo, Ez, Er, Eh. reflexivity.
    + rewrite lookup_seq_ge by lia. simpl.
      rewrite (proj2 (lookup_ge_None oris i)) by lia. reflexivity.
  - intros k Hk. unfold f.
    destruct (lookup_lt_is_Some_2 oris k) as [o Eo]; [lia|].
    destruct (lookup_lt_is_Some_2 radii k) as [r Er]; [lia|].
    destruct (lookup_lt_is_Some_2 heights k) as [h Eh]; [lia|].
    rewrite (getitem_Some _ _ _ Er), (getitem_Some _ _ _ Eh),
      (getitem_Some _ _ _ Eo), Eo, Er, Eh.
    reflexivity.
Qed.

Lemma cap_transforms_ok (n : nat) (radii : list R) (oris : list mat3) :
  length radii = n -> length oris = n ->
  cap_transforms n radii oris
  = Ok (zip_with (fun o r => matmul o (np_diag r r 1)) oris radii).
Proof.
  intros Hr Ho. unfold cap_transforms, np_zeros.
  set (f := fun k : nat =>
    (r <~ getitem radii k ;; o <~ getitem oris k ;;
     Ok (matmul o (np_diag r r 1)))%py).
  rewrite (for_each_ext _ (fun k out => rbind (f k) (setitem out k))).
  2:{ intros k out. unfold f.
      destruct (getitem radii k); simpl; [|reflexivity].
      destruct (getitem oris k); reflexivity. }
  rewrite (for_each_fill f
    (fun k => matmul (default zero33 (oris !! k))
                (np_diag (default 0 (radii !! k)) (default 0 (radii !! k)) 1))).
  - f_equal. apply list_eq. intros i.
    rewrite list_lookup_fmap, lookup_zip_with.
    destruct (decide (i < n)%nat) as [Hi|Hi].
    + rewrite lookup_seq_lt by lia. simpl.
      destruct (lookup_lt_is_Some_2 oris i) as [o Eo]; [lia|].
      destruct (lookup_lt_is_Some_2 radii i) as [r Er]; [lia|].
      rewrite Eo, Er. reflexivity.
    + rewrite lookup_seq_ge by lia. simpl.
      rewrite (proj2 (lookup_ge_None oris i)) by lia. reflexivity.
  - intros k Hk. unfold f.
    destruct (lookup_lt_is_Some_2 oris k) as [o Eo]; [lia|].
    destruct (lookup_lt_is_Some_2 radii k) as [r Er]; [lia|].
    rewrite (getitem_Some _ _ _ Er), (getitem_Some _ _ _ Eo), Eo, Er.
    reflexivity.
Qed.

(** ** Cap placement: what the code computes is what section 4.3 states *)

Lemma matvec_axis_bottom (p : vec3) (o : mat3) (h : R) :
  vadd p (matvec o (V3 0 0 (-0.5 * h))) = cap_bottom p o h.
Proof.
  unfold cap_bottom, vadd, vsub, vscale, matvec, dot, col2. simpl.
  f_equal; lra.
Qed.

Lemma matvec_axis_top (p : vec3) (o : mat3) (h : R) :
  vadd p (matvec o (V3 0 0 (0.5 * h))) = cap_top p o h.
Proof.
  unfold cap_top, vadd, vscale, matvec, dot, col2. simpl.
  f_equal; lra.
Qed.

Lemma half_axis_bottom (p : vec3) (o : mat3) (h : R) :
  vsub p (vscale (col2 o) (h * 0.5)) = cap_bottom p o h.
Proof. unfold cap_bottom. do 2 f_equal. lra. Qed.

Lemma half_axis_top (p : vec3) (o : mat3) (h : R) :
  vadd p (vscale (col2 o) (h * 0.5)) = cap_top p o h.
Proof. unfold cap_top. do 2 f_equal. lra. Qed.

(** ** The batches of the deferred collection *)

Lemma np_vstack_map {A B} (f : A -> B) (l : list A) :
  l <> [] -> np_vstack (map f l) = Ok (map f l).
Proof. destruct l; [congruence | reflexivity]. Qed.

Lemma lateral_batch_ok (instances : list Deferred.Instance) :
  instances <> [] ->
  Deferred.lateral_batch instances = Ok (lateral_of instances).
Proof.
  intros Hne. unfold Deferred.lateral_batch, lateral_of.
  rewrite !np_vstack_map by exact Hne. cbn [rbind].
  rewrite side_transforms_ok by (rewrite length_map; reflexivity).
  cbn [rbind]. do 3 f_equal.
  clear Hne. induction instances as [|i l IH]; simpl; [reflexivity|].
  f_equal. apply IH.
Qed.

Section CapLoop.
Context {A : Type}.

Lemma setitem_even (P : list A) (z x : A) (n i : nat) :
  length P = (2 * i)%nat ->
  setitem (P ++ replicate (2 * S n) z) (2 * i) x
  = Ok ((P ++ [x]) ++ replicate (S (2 * n)) z).
Proof.
  intros H. rewrite <- H.
  replace (2 * S n)%nat with (S (S (2 * n))) by lia.
  apply setitem_frontier.
Qed.

Lemma setitem_odd (P : list A) (z x y : A) (n i : nat) :
  length P = (2 * i)%nat ->
  setitem ((P ++ [x]) ++ replicate (S (2 * n)) z) (2 * i + 1) y
  = Ok (((P ++ [x]) ++ [y]) ++ replicate (2 * n) z).
Proof.
  intros H.
  replace (2 * i + 1)%nat with (length (P ++ [x]))
    by (rewrite length_app; simpl; lia).
  apply setitem_frontier.
Qed.
End CapLoop.

Lemma cap_loop_inv (rest : list Deferred.Instance) :
  forall (i : nat) (P : list vec3) (X : list mat3) (C : list rgba),
    length P = (2 * i)%nat -> length X = (2 * i)%nat -> length C = (2 * i)%nat ->
    for_each Deferred.cap_step (zip (seq i (length rest)) rest)
      (P ++ replicate (2 * length rest) zero3,
       X ++ replicate (2 * length rest) zero33,
       C ++ replicate (2 * length rest) zero4)
    = Ok (P ++ fst (fst (caps_of rest)),
          X ++ snd (fst (caps_of rest)),
          C ++ snd (caps_of rest)).
Proof.
  induction rest as [|inst rest IH]; intros i P X C HP HX HC.
  - simpl. rewrite !app_nil_r. reflexivity.
  - cbn [length seq zip_with for_each].
    unfold Deferred.cap_step at 1.
    rewrite (setitem_even P) by exact HP. cbn [rbind].
    rewrite (setitem_odd P) by exact HP. cbn [rbind].
    rewrite (setitem_even X) by exact HX. cbn [rbind].
    rewrite (setitem_odd X) by exact HX. cbn [rbind].
    rewrite (setitem_even C) by exact HC. cbn [rbind].
    rewrite (setitem_odd C) by exact HC. cbn [rbind].
    rewrite IH by (rewrite !length_app; simpl; lia).
    rewrite matvec_axis_bottom, matvec_axis_top.
    simpl. rewrite <- !app_assoc. reflexivity.
Qed.

Lemma cap_batch_ok (instances : list Deferred.Instance) :
  Deferred.cap_batch instances = Ok (caps_of instances).
Proof.
  unfold Deferred.cap_batch, enumerate, np_zeros.
  pose proof (cap_loop_inv instances 0 [] [] []) as H.
  cbn [app] in H. rewrite H by reflexivity.
  destruct (caps_of instances) as [[p x] c]. reflexivity.
Qed.

(** ** [refresh], block by block *)

Section RefreshBlocks.
Import Deferred.

Lemma refresh_empty (s : Store) :
  _instances (self s) = [] -> refresh s = (Ok tt, s).
Proof. unfold refresh, bind, gets. intros ->. reflexivity. Qed.

Lemma refresh_nonempty (s : Store) :
  _instances (self s) <> [] ->
  refresh s = bind ensure_geometry (fun _ => emit (_instances (self s))) s.
Proof.
  intros H. unfold refresh at 1, bind at 1, gets.
  destruct (decide (length (_instances (self s)) = 0%nat)) as [E|E].
  - destruct (_instances (self s)); [congruence | discriminate].
  - reflexivity.
Qed.

Lemma ensure_side_eq (s : Store) :
  ensure_side s =
  match _side_vertices (cls s) with
  | Some _ => (Ok tt, s)
  | None =>
      match side_geometry (_segs (self s)) with
      | Ok g => (Ok tt, with_cls (set_side g) s)
      | Raise e => (Raise e, s)
      end
  end.
Proof.
  unfold ensure_side, bind, gets, lift, modify, ret.
  destruct (_side_vertices (cls s)); [reflexivity|].
  destruct (side_geometry (_segs (self s))); reflexivity.
Qed.

Lemma ensure_disk_eq (s : Store) :
  ensure_disk s =
  match _disk_vertices (cls s) with
  | Some _ => (Ok tt, s)
  | None =>
      match disk_geometry (_slices (self s)) with
      | Ok g => (Ok tt, with_cls (set_disk g) s)
      | Raise e => (Raise e, s)
      end
  end.
Proof.
  unfold ensure_disk, bind, gets, lift, modify, ret.
  destruct (_disk_vertices (cls s)); [reflexivity|].
  destruct (disk_geometry (_slices (self s))); reflexivity.
Qed.

Lemma side_geometry_raises (n : Z) (e : exn) :
  side_geometry n = Raise e -> e = ValueError.
Proof.
  unfold side_geometry, np_linspace.
  destruct (n <? 0)%Z; [|discriminate]. intros [= <-]. reflexivity.
Qed.

Lemma disk_geometry_raises (n : Z) (e : exn) :
  disk_geometry n = Raise e -> e = ValueError.
Proof.
  unfold disk_geometry, np_linspace.
  destruct (n <? 0)%Z; [|discriminate]. intros [= <-]. reflexivity.
Qed.

Lemma ensure_geometry_frame (s s' : Store) (r : result unit) :
  ensure_geometry s = (r, s') ->
  heap s' = heap s /\ self s' = self s /\
  (is_Some (_side_vertices (cls s)) -> is_Some (_side_vertices (cls s'))) /\
  (is_Some (_disk_vertices (cls s)) -> is_Some (_disk_vertices (cls s'))) /\
  (r = Ok tt \/ r = Raise ValueError) /\
  (r = Ok tt ->
     is_Some (_side_vertices (cls s')) /\ is_Some (_disk_vertices (cls s'))) /\
  ensure_geometry s' = (r, s').
Proof.
  unfold ensure_geometry, bind. rewrite ensure_side_eq.
  destruct (_side_vertices (cls s)) as [sv|] eqn:Esv.
  - rewrite ensure_disk_eq.
    destruct (_disk_vertices (cls s)) as [dv|] eqn:Edv;
      [|destruct (disk_geometry (_slices (self s))) as [g|e] eqn:Eg];
      intros [= <- <-]; rewrite ensure_side_eq; simpl; rewrite ?Esv;
      rewrite ensure_disk_eq; simpl; rewrite ?Edv, ?Eg;
      try (apply disk_geometry_raises in Eg as ->);
      repeat split; eauto; discriminate.
  - destruct (side_geometry (_segs (self s))) as [g|e] eqn:Eg.
    + rewrite ensure_disk_eq. simpl.
      destruct (_disk_vertices (cls s)) as [dv|] eqn:Edv;
      [|destruct (disk_geometry (_slices (self s))) as [g'|e] eqn:Eg'];
      intros [= <- <-]; rewrite ensure_side_eq; simpl; 
      rewrite ensure_disk_eq; simpl; rewrite ?Edv, ?Eg';
      try (apply disk_geometry_raises in Eg' as ->);
      repeat split; eauto; discriminate.
    + intros [= <- <-]. rewrite ensure_side_eq, Esv, Eg.
      apply side_geometry_raises in Eg as ->.
      repeat split; eauto; discriminate.
Qed.

Lemma alter_with_batch (h : handle) (p : list vec3) (x : list mat3)
    (c : list rgba) (l : list InstancedMesh) :
  alter (set_instance_colors c) h
    (alter (set_instance_transforms x) h (alter (set_instance_positions p) h l))
  = alter (with_batch (p, x, c)) h l.
Proof. rewrite !list_alter_alter_eq. reflexivity. Qed.

(** First emission: two visuals are constructed and recorded. *)
Lemma emit_unbound (s : Store) :
  _instances (self s) <> [] ->
  _side_mesh (self s) = None -> _disk_mesh (self s) = None ->
  emit (_instances (self s)) s
  = (Ok tt,
     {| cls := cls s;
        heap := heap s ++
          [mesh_of (_side_vertices (cls s)) (_side_indices (cls s))
                   (lateral_of (_instances (self s)));
           mesh_of (_disk_vertices (cls s)) (_disk_indices (cls s))
                   (caps_of (_instances (self s)))];
        self := set_disk_mesh (S (length (heap s)))
                  (set_side_mesh (length (heap s)) (self s)) |}).
Proof.
  destruct s as [k h c]. cbn [cls self heap]. intros Hne Hs Hd.
  unfold emit, bind, lift, gets. cbn [cls self heap].
  rewrite lateral_batch_ok, cap_batch_ok, Hs by exact Hne.
  unfold lateral_of, caps_of, create_or_update, bind, gets, new_mesh, modify,
    with_self, with_heap, mesh_of.
  cbn [cls self heap set_side_mesh _disk_mesh]. rewrite Hd.
  cbn [cls self heap]. rewrite length_app, <- app_assoc. simpl.
  rewrite Nat.add_1_r. reflexivity.
Qed.

(** Later emissions: the instance arrays of the two recorded visuals
    are assigned, nothing else changes. *)
Lemma emit_bound (s : Store) (hs hd : handle) :
  _instances (self s) <> [] ->
  _side_mesh (self s) = Some hs -> _disk_mesh (self s) = Some hd ->
  emit (_instances (self s)) s
  = (Ok tt,
     with_heap (fun h =>
       alter (with_batch (caps_of (_instances (self s)))) hd
         (alter (with_batch (lateral_of (_instances (self s)))) hs h)) s).
Proof.
  destruct s as [k h c]. cbn [cls self heap]. intros Hne Hs Hd.
  unfold emit, bind, lift, gets. cbn [cls self heap].
  rewrite lateral_batch_ok, cap_batch_ok, Hs by exact Hne.
  unfold lateral_of, caps_of, create_or_update, bind, update_mesh, modify,
    with_heap.
  cbn [cls self heap]. rewrite Hd. cbn [cls self heap].
  rewrite !alter_with_batch. reflexivity.
Qed.

End RefreshBlocks.

(** ** Programs over several collections *)

Section Worlds.
Import Deferred.

Lemma bound_ok_mono (w w' : World) (c : Collection) :
  bound_ok w c ->
  (length (w_heap w) <= length (w_heap w'))%nat ->
  (is_Some (_side_vertices (w_cls w)) -> is_Some (_side_vertices (w_cls w'))) ->
  (is_Some (_disk_vertices (w_cls w)) -> is_Some (_disk_vertices (w_cls w'))) ->
  bound_ok w' c.
Proof.
  unfold bound_ok. intros H Hl Hs Hd.
  destruct (_side_mesh c), (_disk_mesh c); try exact H.
  destruct H as (? & ? & ? & ? & ? & ?). repeat split; auto; lia.
Qed.

Lemma ensure_geometry_cached (s : Store) :
  is_Some (_side_vertices (cls s)) -> is_Some (_disk_vertices (cls s)) ->
  ensure_geometry s = (Ok tt, s).
Proof.
  intros [v Hv] [d Hd]. unfold ensure_geometry, bind.
  rewrite ensure_side_eq, Hv, ensure_disk_eq, Hd. reflexivity.
Qed.

Lemma store_eta (s : Store) :
  {| cls := cls s; heap := heap s; self := self s |} = s.
Proof. destruct s. reflexivity. Qed.

Lemma alter_fixed {A} (f : A -> A) (l : list A) (i : nat) (x : A) :
  l !! i = Some x -> f x = x -> alter f i l = l.
Proof.
  intros Hl Hf. apply list_eq. intros j.
  destruct (decide (i = j)) as [<-|Hne].
  - rewrite list_lookup_alter_eq, Hl. simpl. rewrite Hf. reflexivity.
  - apply list_lookup_alter_ne, Hne.
Qed.



Lemma world_eta (w : World) :
  {| w_cls := w_cls w; w_heap := w_heap w; w_objs := w_objs w |} = w.
Proof. destruct w. reflexivity. Qed.

Lemma exec_refresh (w : World) (cid : nat) (c : Collection) :
  w_objs w !! cid = Some c -> bound_ok w c ->
  exists r w', exec (Refresh cid) w = Some (r, w') /\ refresh_case w cid c r w'.
Proof.
  intros Hc Hb. unfold exec, invoke. rewrite Hc. simpl.
  fold (store_of w c).
  destruct (decide (_instances c = [])) as [He|Hne].
  - rewrite refresh_empty by exact He. simpl.
    rewrite list_insert_id by exact Hc. rewrite world_eta.
    eexists _, _. split; [reflexivity|]. constructor. exact He.
  - rewrite refresh_nonempty by exact Hne. unfold bind.
    destruct (ensure_geometry (store_of w c)) as [r s1] eqn:Eg.
    destruct (ensure_geometry_frame _ _ _ Eg)
      as (Hh & Hself & Hsv & Hdv & Hr & Hok & _).
    unfold store_of in Hh, Hself. simpl in Hh, Hself.
    assert (Es1 : s1 = {| cls := cls s1; heap := w_heap w; self := c |}).
    { rewrite <- Hh, <- Hself. symmetry. apply store_eta. }
    destruct Hr as [-> | ->].
    + unfold bound_ok in Hb.
      destruct (_side_mesh c) as [hs|] eqn:Es, (_disk_mesh c) as [hd|] eqn:Ed;
        try contradiction.
      * destruct Hb as (_ & _ & _ & _ & Hs & Hd).
        rewrite ensure_geometry_cached in Eg by assumption.
        injection Eg as <-.
        pose proof (emit_bound (store_of w c) hs hd Hne Es Ed) as E.
        unfold store_of in E |- *. cbn [self] in E |- *. rewrite E. simpl.
        rewrite list_insert_id by exact Hc.
        eexists _, _. split; [reflexivity|]. apply rc_update; assumption.
      * pose proof (emit_unbound {| cls := cls s1; heap := w_heap w; self := c |}
                      Hne Es Ed) as E.
        cbn [self cls heap] in E. unfold store_of. cbn [self]. rewrite Es1, E. simpl.
        eexists _, _. split; [reflexivity|].
        apply rc_create; try assumption. rewrite <- Es1. exact Eg.
    + simpl. rewrite Hself, Hh. rewrite list_insert_id by exact Hc.
      eexists _, _. split; [reflexivity|].
      apply rc_raise; [assumption|]. rewrite <- Es1. exact Eg.
Qed.

Lemma frame_cls (w : World) (c : Collection) (r : result unit) (k : ClassAttrs) :
  ensure_geometry (store_of w c)
  = (r, {| cls := k; heap := w_heap w; self := c |}) ->
  (is_Some (_side_vertices (w_cls w)) -> is_Some (_side_vertices k)) /\
  (is_Some (_disk_vertices (w_cls w)) -> is_Some (_disk_vertices k)) /\
  (r = Ok tt -> is_Some (_side_vertices k) /\ is_Some (_disk_vertices k)) /\
  ensure_geometry {| cls := k; heap := w_heap w; self := c |}
  = (r, {| cls := k; heap := w_heap w; self := c |}).
Proof.
  intros Eg.
  destruct (ensure_geometry_frame _ _ _ Eg) as (_ & _ & Hsv & Hdv & _ & Hok & Hi).
  repeat split; auto; apply Hok; assumption.
Qed.

Lemma refresh_case_wf (w w' : World) (cid : nat) (c : Collection)
    (r : result unit) :
  well_formed w -> w_objs w !! cid = Some c ->
  refresh_case w cid c r w' -> well_formed w'.
Proof.
  intros Hwf Hc Hcase. destruct Hcase as [He | k Hne Eg | k Hne Es Ed Eg | hs hd Hne Es Ed].
  - exact Hwf.
  - destruct (frame_cls _ _ _ _ Eg) as (Hsv & Hdv & _).
    intros j cj Hj. apply (bound_ok_mono w); auto. apply (Hwf j), Hj.
  - destruct (frame_cls _ _ _ _ Eg) as (Hsv & Hdv & Hok & _).
    destruct (Hok eq_refl) as [Hs Hd].
    intros j cj Hj. cbn [w_objs] in Hj.
    destruct (decide (cid = j)) as [<-|Hneq].
    + rewrite list_lookup_insert_eq in Hj by (eapply lookup_lt_Some, Hc).
      injection Hj as <-. unfold bound_ok. cbn.
      rewrite length_app. cbn. repeat split; auto; lia.
    + rewrite list_lookup_insert_ne in Hj by exact Hneq.
      apply (bound_ok_mono w); auto; [apply (Hwf j), Hj|].
      cbn. rewrite length_app. lia.
  - intros j cj Hj. apply (bound_ok_mono w); auto; [apply (Hwf j), Hj|].
    cbn. rewrite !length_alter. lia.
Qed.

Lemma step_well_formed (w : World) (c : call) :
  well_formed w -> well_formed (step w c).
Proof.
  intros Hwf. unfold step.
  destruct c as [segs slices | cid p r h k o | cid].
  - cbn. intros j cj Hj. cbn in Hj.
    apply lookup_app_Some in Hj as [Hj | [_ Hj]].
    + apply (bound_ok_mono w); auto. apply (Hwf j), Hj.
    + apply list_lookup_singleton_Some in Hj as [_ <-]. exact I.
  - cbn. unfold invoke.
    destruct (w_objs w !! cid) as [c|] eqn:Hc; [|exact Hwf].
    cbn. intros j cj Hj. cbn in Hj.
    destruct (decide (cid = j)) as [<-|Hneq].
    + rewrite list_lookup_insert_eq in Hj by (eapply lookup_lt_Some, Hc).
      injection Hj as <-.
      pose proof (Hwf cid c Hc) as Hb. unfold bound_ok in *. cbn.
      destruct (_side_mesh c), (_disk_mesh c); try exact Hb.
      destruct Hb as (? & ? & ? & ? & ? & ?). repeat split; auto.
      intros E. apply app_eq_nil in E as [_ E]. discriminate.
    + rewrite list_lookup_insert_ne in Hj by exact Hneq.
      apply (bound_ok_mono w); auto. apply (Hwf j), Hj.
  - destruct (w_objs w !! cid) as [c|] eqn:Hc.
    + destruct (exec_refresh w cid c Hc (Hwf cid c Hc)) as (r & w' & -> & Hcase).
      eapply refresh_case_wf; eauto.
    + cbn. unfold invoke. rewrite Hc. exact Hwf.
Qed.

Lemma run_snoc (w : World) (p : list call) (c : call) :
  run w (p ++ [c]) = step (run w p) c.
Proof. unfold run. rewrite fold_left_app. reflexivity. Qed.

Lemma run_well_formed (w : World) (p : list call) :
  well_formed w -> well_formed (run w p).
Proof.
  intros Hwf. induction p as [|c p IH] using rev_ind.
  - exact Hwf.
  - rewrite run_snoc. apply step_well_formed, IH.
Qed.

Lemma reachable_well_formed (w : World) : reachable w -> well_formed w.
Proof.
  intros [p ->]. apply run_well_formed. intros j c Hj. discriminate.
Qed.


Lemma step_refresh (w w' : World) (cid : nat) (r : result unit) :
  exec (Refresh cid) w = Some (r, w') -> step w (Refresh cid) = w'.
Proof. unfold step. intros ->. reflexivity. Qed.


Lemma cached_not_raise (w : World) (c : Collection) (e : exn) (s : Store) :
  is_Some (_side_vertices (w_cls w)) -> is_Some (_disk_vertices (w_cls w)) ->
  ensure_geometry (store_of w c) = (Raise e, s) -> False.
Proof.
  intros Hs Hd. rewrite ensure_geometry_cached by assumption. discriminate.
Qed.





Lemma side_geometry_nonneg (n : Z) : (0 <= n)%Z -> is_ok (side_geometry n).
Proof.
  intros H. unfold side_geometry, np_linspace.
  destruct (n <? 0)%Z eqn:E; [lia | exact I].
Qed.

Lemma disk_geometry_nonneg (n : Z) : (0 <= n)%Z -> is_ok (disk_geometry n).
Proof.
  intros H. unfold disk_geometry, np_linspace.
  destruct (n <? 0)%Z eqn:E; [lia | exact I].
Qed.

Lemma ensure_geometry_nonneg (s : Store) :
  (0 <= _segs (self s))%Z -> (0 <= _slices (self s))%Z ->
  exists s', ensure_geometry s = (Ok tt, s').
Proof.
  intros Hs Hd. unfold ensure_geometry, bind. rewrite ensure_side_eq.
  pose proof (side_geometry_nonneg _ Hs) as Gs.
  pose proof (disk_geometry_nonneg _ Hd) as Gd.
  destruct (_side_vertices (cls s)).
  - rewrite ensure_disk_eq. destruct (_disk_vertices (cls s)); [eauto|].
    destruct (disk_geometry (_slices (self s))); [eauto | contradiction].
  - destruct (side_geometry (_segs (self s))); [|contradiction].
    rewrite ensure_disk_eq. cbn.
    destruct (_disk_vertices (cls s)); [eauto|].
    destruct (disk_geometry (_slices (self s))); [eauto | contradiction].
Qed.

End Worlds.

(** ** The emission protocol *)

Section Protocol.
Import Deferred.

Lemma with_batch_geometry (b : batch) (m : InstancedMesh) :
  vertices (with_batch b m) = vertices m /\
  faces (with_batch b m) = faces m /\
  batch_of (with_batch b m) = b.
Proof. destruct b as [[p x] c]. repeat split. Qed.


(** C10.  Refreshing a collection that holds no instance returns at once:
    whatever the class attributes and the heap, the store is handed back
    unchanged; in a program the world is unchanged, also after any number
    of such refreshes, and the collection is not bound to any visual. *)
Theorem refresh_empty_is_noop (w : World) (cid : nat) (c : Collection) :
  reachable w -> w_objs w !! cid = Some c -> _instances c = [] ->
  (forall k h,
      refresh {| cls := k; heap := h; self := c |}
      = (Ok tt, {| cls := k; heap := h; self := c |})) /\
  exec (Refresh cid) w = Some (Ok tt, w) /\
  (forall n, Nat.iter n (fun v => step v (Refresh cid)) w = w) /\
  _side_mesh c = None /\ _disk_mesh c = None.
Proof.
  intros Hreach Hc Hemp.
  assert (He : exec (Refresh cid) w = Some (Ok tt, w)).
  { unfold exec, invoke. rewrite Hc. simpl.
    rewrite refresh_empty by exact Hemp. simpl.
    rewrite list_insert_id by exact Hc. rewrite world_eta. reflexivity. }
  split; [|split; [exact He|split]].
  - intros k h. apply refresh_empty. exact Hemp.
  - induction n as [|n IH]; [reflexivity|].
    change (step (Nat.iter n (fun v => step v (Refresh cid)) w) (Refresh cid) = w).
    rewrite IH. apply (step_refresh _ _ _ _ He).
  - pose proof (reachable_well_formed w Hreach cid c Hc) as Hb.
    unfold bound_ok in Hb.
    destruct (_side_mesh c), (_disk_mesh c); try contradiction; auto.
    destruct Hb as (_ & _ & _ & Hne & _). contradiction.
Qed.
End Protocol.



Lemma refresh_empty_is_noop_witness :
  Deferred.reachable (Deferred.run Deferred.empty_world [Deferred.New 32 32]) /\
  Deferred.exec (Deferred.Refresh 0)
    (Deferred.run Deferred.empty_world [Deferred.New 32 32])
  = Some (Ok tt, Deferred.run Deferred.empty_world [Deferred.New 32 32]).
Proof.
  assert (Hr : Deferred.reachable (Deferred.run Deferred.empty_world [Deferred.New 32 32]))
    by (eexists; reflexivity).
  split; [exact Hr|].
  apply (refresh_empty_is_noop _ 0%nat (Deferred.init 32 32) Hr); reflexivity.
Defined.

(** ** The bulk collection, block by block *)

Section BulkBlocks.
Import Bulk.

Lemma bulk_ensure_side_eq (segs : Z) (g : Globals) :
  ensure_side segs g =
  match _side_vertices (cls g) with
  | Some _ => (Ok tt, g)
  | None =>
      match side_geometry segs with
      | Ok m => (Ok tt, with_cls (set_side m) g)
      | Raise e => (Raise e, g)
      end
  end.
Proof.
  unfold ensure_side, bind, gets, lift, modify, ret.
  destruct (_side_vertices (cls g)); [reflexivity|].
  destruct (side_geometry segs); reflexivity.
Qed.

Lemma bulk_ensure_disk_eq (slices : Z) (g : Globals) :
  ensure_disk slices g =
  match _disk_vertices (cls g) with
  | Some _ => (Ok tt, g)
  | None =>
      match disk_geometry slices with
      | Ok m => (Ok tt, with_cls (set_disk m) g)
      | Raise e => (Raise e, g)
      end
  end.
Proof.
  unfold ensure_disk, bind, gets, lift, modify, ret.
  destruct (_disk_vertices (cls g)); [reflexivity|].
  destruct (disk_geometry slices); reflexivity.
Qed.

(** When the mesh is cached or the count is not negative, the block
    returns, changes only the class attributes and leaves the mesh cached
    (the very one that was cached, if any). *)
Lemma bulk_ensure_side_ok (segs : Z) (g : Globals) :
  is_Some (_side_vertices (cls g)) \/ (0 <= segs)%Z ->
  exists k, ensure_side segs g = (Ok tt, {| cls := k; heap := heap g |}) /\
            _disk_vertices k = _disk_vertices (cls g) /\
            _disk_indices k = _disk_indices (cls g).
Proof.
  intros H. rewrite bulk_ensure_side_eq. destruct g as [k h]. cbn in H |- *.
  destruct (_side_vertices k) eqn:E.
  - exists k. auto.
  - destruct H as [[x Hx]|H]; [discriminate Hx|].
    pose proof (side_geometry_nonneg segs H) as Hok.
    destruct (side_geometry segs) as [m|]; [|contradiction].
    exists (set_side m k). auto.
Qed.

Lemma bulk_ensure_disk_ok (slices : Z) (g : Globals) :
  is_Some (_disk_vertices (cls g)) \/ (0 <= slices)%Z ->
  exists k, ensure_disk slices g = (Ok tt, {| cls := k; heap := heap g |}) /\
            _side_vertices k = _side_vertices (cls g) /\
            _side_indices k = _side_indices (cls g).
Proof.
  intros H. rewrite bulk_ensure_disk_eq. destruct g as [k h]. cbn in H |- *.
  destruct (_disk_vertices k) eqn:E.
  - exists k. auto.
  - destruct H as [[x Hx]|H]; [discriminate Hx|].
    pose proof (disk_geometry_nonneg slices H) as Hok.
    destruct (disk_geometry slices) as [m|]; [|contradiction].
    exists (set_disk m k). auto.
Qed.

Lemma zip_with_nested {A B C D E F G} (f : A -> D -> F) (g : B -> C -> D)
    (a : E -> B) (b : G -> C) (l : list A) (k : list E) (m : list G) :
  zip_with f l (zip_with g (map a k) (map b m))
  = zip_with (fun x y => f x (g (a (fst y)) (b (snd y)))) l (zip k m).
Proof.
  revert k m. induction l as [|x l IH]; intros [|y k] [|z m]; cbn; try reflexivity.
  f_equal. apply IH.
Qed.

Lemma cap_ends_eq (positions : list vec3) (heights : list R)
    (orientations : list mat3) :
  cap_ends positions heights orientations
  = (zip_with (fun p oh => cap_bottom p (fst oh) (snd oh))
              positions (zip orientations heights),
     zip_with (fun p oh => cap_top p (fst oh) (snd oh))
              positions (zip orientations heights)).
Proof.
  unfold cap_ends. rewrite !zip_with_nested.
  f_equal; apply zip_with_ext; auto; intros p [o h]; cbn.
  - apply half_axis_bottom.
  - apply half_axis_top.
Qed.

Lemma assert_true {St A} (k : unit -> M St A) (b : bool) (s : St) :
  b = true -> bind (assert_ b) k s = k tt s.
Proof. intros ->. reflexivity. Qed.

Lemma shape_is_true {A} (a : list A) (n : nat) :
  length a = n -> shape_is a n = true.
Proof. intros H. unfold shape_is. apply bool_decide_eq_true_2, H. Qed.

(** [__init__] on arrays of one length. *)
Lemma init_ok (positions : list vec3) (radii heights : list R)
    (orientations : list mat3) (colors : list rgba) (segs slices : Z)
    (g : Globals) :
  length radii = length positions -> length heights = length positions ->
  length orientations = length positions -> length colors = length positions ->
  is_Some (_side_vertices (cls g)) \/ (0 <= segs)%Z ->
  is_Some (_disk_vertices (cls g)) \/ (0 <= slices)%Z ->
  exists k,
    init positions radii heights orientations colors segs slices g
    = (Ok {| N := length positions; positions := positions; radii := radii;
             heights := heights; orientations := orientations;
             colors := colors; _segs := segs; _slices := slices;
             _side_mesh := length (heap g);
             _cap_mesh := S (length (heap g)) |},
       {| cls := k;
          heap := heap g ++
            [mesh_of (_side_vertices k) (_side_indices k)
               (bulk_lateral positions radii heights orientations colors);
             mesh_of (_disk_vertices k) (_disk_indices k)
               (bulk_caps positions radii heights orientations colors)] |}).
Proof.
  intros Hr Hh Ho Hc Hs Hd. unfold init.
  rewrite !assert_true by (apply shape_is_true; auto).
  destruct (bulk_ensure_side_ok segs g Hs) as (k1 & E1 & Hdv1 & Hdi1).
  unfold bind at 1. rewrite E1.
  unfold bind at 1, gets at 1. cbn [cls].
  unfold bind at 1, lift at 1.
  rewrite side_transforms_ok by auto.
  unfold bind at 1, new_mesh at 1, with_heap. cbn [heap cls].
  destruct (bulk_ensure_disk_ok slices {| cls := k1; heap := heap g ++
     [{| vertices := _side_vertices k1; faces := _side_indices k1;
         instance_positions := positions;
         instance_transforms :=
           zip_with (fun o rh => matmul o (np_diag (fst rh) (fst rh) (snd rh)))
                    orientations (zip radii heights);
         instance_colors := colors |}] |}) as (k & E2 & Hsv & Hsi).
  { cbn [cls]. rewrite <- Hdv1 in Hd.
    destruct Hd as [Hd|Hd]; [left|right]; auto. }
  unfold bind at 1. rewrite E2.
  unfold bind at 1, gets at 1. cbn [cls heap].
  rewrite cap_ends_eq.
  unfold bind at 1, lift at 1.
  rewrite cap_transforms_ok by auto.
  unfold bind at 1, new_mesh at 1, ret, with_heap. cbn [heap cls].
  exists k. cbn in Hsv, Hsi. rewrite <- Hsv, <- Hsi.
  rewrite length_app, <- app_assoc. cbn [length app].
  rewrite Nat.add_1_r. reflexivity.
Qed.





End BulkBlocks.

(** ** The batches of both collections *)

Section Batches.


Lemma matmul_eye_l (A : mat3) : matmul np_eye A = A.
Proof.
  destruct A as [[] [] []].
  unfold matmul, np_eye, np_diag, dot, col0, col1, col2. cbn.
  f_equal; f_equal; ring.
Qed.










End Batches.

(** ** Unit geometry *)

Section Geometry.

(** The sample angles of a ring of [n] points. *)
Lemma linspace_ring (n : Z) :
  (0 <= n)%Z ->
  np_linspace 0 (2 * PI) n
  = Ok (map (fun i => INR i * ((2 * PI - 0) / INR (Z.to_nat n)) + 0)
            (seq 0 (Z.to_nat n))).
Proof.
  intros H. unfold np_linspace. destruct (n <? 0)%Z eqn:E; [lia | reflexivity].
Qed.

Lemma ring_angle (i S : nat) :
  (0 < S)%nat ->
  INR i * ((2 * PI - 0) / INR S) + 0 = 2 * PI * INR i / INR S.
Proof.
  intros H. assert (INR S <> 0) by (apply not_0_INR; lia). field. assumption.
Qed.

(** One ring of the side wall: row [i] of
    [column_stack([stack([cos, sin]), z * ones])]. *)
Lemma ring_lookup (angles : list R) (z : R) (i : nat) (a : R) :
  angles !! i = Some a ->
  np_column_stack (np_stack2 (map cos angles) (map sin angles))
                  (map (Rmult z) (np_ones (length angles))) !! i
  = Some (V3 (cos a) (sin a) (z * 1)).
Proof.
  intros Ha. unfold np_column_stack, np_stack2, np_ones.
  rewrite lookup_zip_with, lookup_zip_with.
  change (map cos angles) with (cos <$> angles).
  change (map sin angles) with (sin <$> angles).
  change (map (Rmult z) (replicate (length angles) 1))
    with (Rmult z <$> replicate (length angles) 1).
  rewrite !list_lookup_fmap, Ha.
  rewrite lookup_replicate_2 by (eapply lookup_lt_Some, Ha).
  reflexivity.
Qed.

Lemma ring_length (angles : list R) (z : R) :
  length (np_column_stack (np_stack2 (map cos angles) (map sin angles))
                          (map (Rmult z) (np_ones (length angles))))
  = length angles.
Proof.
  unfold np_column_stack, np_stack2, np_ones.
  rewrite !length_zip_with, !length_map, length_replicate. lia.
Qed.

Lemma side_faces_loop_eq (S : nat) :
  side_faces_loop S
  = flat_map (fun i => [Face i (i + S) ((i + 1) mod S);
                        Face ((i + 1) mod S) (i + S) ((i + 1) mod S + S)])
             (seq 0 S).
Proof.
  unfold side_faces_loop.
  exact (fold_left_append_pair
           (fun i => Face i (i + S) ((i + 1) mod S))
           (fun i => Face ((i + 1) mod S) (i + S) ((i + 1) mod S + S))
           (seq 0 S) []).
Qed.

(** C5.  For [S >= 3] segments the side-wall generation returns [2S]
    vertices, vertex [i] on the bottom ring at angle [2 pi i / S] with
    [z = -0.5] and vertex [i + S] above it with [z = +0.5], and [2S] faces,
    for segment [i] the faces [(i, i+S, ni)] and [(ni, i+S, ni+S)] with
    [ni = (i+1) mod S], stored at rows [2i] and [2i+1]; every index is
    below [2S]. *)
Theorem lateral_mesh_shape (segs : Z) :
  (3 <= segs)%Z ->
  exists verts idx,
    side_geometry segs = Ok (verts, idx) /\
    length verts = (2 * Z.to_nat segs)%nat /\
    (forall i, (i < Z.to_nat segs)%nat ->
       verts !! i
       = Some (V3 (cos (2 * PI * INR i / INR (Z.to_nat segs)))
                  (sin (2 * PI * INR i / INR (Z.to_nat segs))) (-0.5)) /\
       verts !! (i + Z.to_nat segs)%nat
       = Some (V3 (cos (2 * PI * INR i / INR (Z.to_nat segs)))
                  (sin (2 * PI * INR i / INR (Z.to_nat segs))) 0.5)) /\
    length idx = (2 * Z.to_nat segs)%nat /\
    (forall i, (i < Z.to_nat segs)%nat ->
       idx !! (2 * i)%nat
       = Some (Face i (i + Z.to_nat segs) ((i + 1) mod Z.to_nat segs)) /\
       idx !! (2 * i + 1)%nat
       = Some (Face ((i + 1) mod Z.to_nat segs) (i + Z.to_nat segs)
                    ((i + 1) mod Z.to_nat segs + Z.to_nat segs))) /\
    (forall f, f ∈ idx ->
       (f0 f < 2 * Z.to_nat segs)%nat /\ (f1 f < 2 * Z.to_nat segs)%nat /\
       (f2 f < 2 * Z.to_nat segs)%nat).
Proof.
  intros H3. unfold side_geometry.
  rewrite linspace_ring by lia. cbn [rbind].
  set (S := Z.to_nat segs). assert (HS : (3 <= S)%nat) by (unfold S; lia).
  set (angles := map (fun i => INR i * ((2 * PI - 0) / INR S) + 0) (seq 0 S)).
  assert (Hlen : length angles = S)
    by (unfold angles; rewrite length_map, length_seq; reflexivity).
  assert (Hang : forall i, (i < S)%nat ->
            angles !! i = Some (2 * PI * INR i / INR S)).
  { intros i Hi. unfold angles.
    change (map ?f ?l) with (f <$> l).
    rewrite list_lookup_fmap, lookup_seq_lt by exact Hi. cbn.
    rewrite ring_angle by lia. reflexivity. }
  replace (np_ones S) with (np_ones (length angles)) by (rewrite Hlen; reflexivity).
  eexists _, _. split; [reflexivity|].
  split; [|split; [|split; [|split]]].
  - rewrite length_app, !ring_length. lia.
  - intros i Hi. split.
    + rewrite lookup_app_l by (rewrite ring_length; lia).
      rewrite (ring_lookup _ _ _ _ (Hang i Hi)). do 2 f_equal. lra.
    + rewrite lookup_app_r by (rewrite ring_length; lia).
      rewrite ring_length. replace (i + S - length angles)%nat with i by lia.
      rewrite (ring_lookup _ _ _ _ (Hang i Hi)). do 2 f_equal. lra.
  - rewrite side_faces_loop_eq, length_flat_map_pair, length_seq. reflexivity.
  - intros i Hi. rewrite side_faces_loop_eq.
    apply (lookup_flat_map_pair
             (fun i => Face i (i + S) ((i + 1) mod S))
             (fun i => Face ((i + 1) mod S) (i + S) ((i + 1) mod S + S))).
    apply lookup_seq_lt. exact Hi.
  - intros f Hf. rewrite side_faces_loop_eq in Hf.
    apply list_elem_of_In, in_flat_map in Hf as (i & Hi & Hf).
    apply in_seq in Hi.
    assert (((i + 1) mod S < S)%nat) by (apply Nat.mod_upper_bound; lia).
    destruct Hf as [<- | [<- | []]]; cbn; lia.
Qed.

Lemma lateral_mesh_shape_witness :
  (3 <= 3)%Z /\
  exists verts idx, side_geometry 3 = Ok (verts, idx) /\ length verts = 6%nat.
Proof.
  split; [lia|].
  destruct (lateral_mesh_shape 3 ltac:(lia)) as (verts & idx & Hg & Hl & _).
  exists verts, idx. split; [exact Hg | exact Hl].
Defined.
End Geometry.

(** ** The setters of the bulk collection *)

Section Setters.
Import Bulk.

Lemma shape_is_false {A} (a : list A) (n : nat) :
  length a <> n -> shape_is a n = false.
Proof. intros H. unfold shape_is. apply bool_decide_eq_false_2, H. Qed.

Lemma replace_if_given_bad {A} (v : list A)
    (setter : list A -> Collection -> Collection) (s : Store) :
  length v <> N (self s) ->
  replace_if_given (Some v) setter s = (Raise AssertionError, s).
Proof.
  intros H. unfold replace_if_given, bind, gets.
  rewrite shape_is_false by exact H. reflexivity.
Qed.

Lemma replace_if_given_good {A} (v : list A)
    (setter : list A -> Collection -> Collection) (s : Store) :
  length v = N (self s) ->
  replace_if_given (Some v) setter s = (Ok tt, with_self (setter v) s).
Proof.
  intros H. unfold replace_if_given, bind, gets.
  rewrite shape_is_true by exact H. reflexivity.
Qed.

(** [set_colors] is all-or-nothing. *)
Lemma set_colors_bad_length (new_colors : list rgba) (s : Store) :
  length new_colors <> N (self s) ->
  set_colors new_colors s = (Raise AssertionError, s).
Proof.
  intros H. unfold set_colors, bind, gets.
  rewrite shape_is_false by exact H. reflexivity.
Qed.

(** [set_transforms] is all-or-nothing when the first array it is given
    is the one of the wrong length... *)
Lemma set_transforms_bad_positions (p : list vec3) (r h : option (list R))
    (o : option (list mat3)) (s : Store) :
  length p <> N (self s) ->
  set_transforms (Some p) r h o s = (Raise AssertionError, s).
Proof.
  intros H. unfold set_transforms. unfold bind at 1.
  rewrite replace_if_given_bad by exact H. reflexivity.
Qed.

(** ... but not when an earlier array was accepted: that one is stored. *)
Lemma set_transforms_bad_radii (p : list vec3) (r : list R)
    (h : option (list R)) (o : option (list mat3)) (s : Store) :
  length p = N (self s) -> length r <> N (self s) ->
  set_transforms (Some p) (Some r) h o s
  = (Raise AssertionError, with_self (set_positions p) s).
Proof.
  intros Hp Hr. unfold set_transforms. unfold bind at 1.
  rewrite replace_if_given_good by exact Hp.
  unfold bind at 1. rewrite replace_if_given_bad by exact Hr. reflexivity.
Qed.
End Setters.

(** ** What is checked, and when *)

Section Rejections.

Lemma side_geometry_lengths (n : Z) :
  (0 <= n)%Z ->
  exists v f, side_geometry n = Ok (v, f) /\
              length v = (2 * Z.to_nat n)%nat /\
              length f = (2 * Z.to_nat n)%nat.
Proof.
  intros H. unfold side_geometry. rewrite linspace_ring by exact H. cbn [rbind].
  eexists _, _. split; [reflexivity|].
  set (angles := map _ (seq 0 (Z.to_nat n))).
  assert (Hlen : length angles = Z.to_nat n)
    by (unfold angles; rewrite length_map, length_seq; reflexivity).
  rewrite <- Hlen at 1 2.
  split.
  - rewrite length_app, !ring_length. lia.
  - rewrite side_faces_loop_eq, length_flat_map_pair, length_seq. reflexivity.
Qed.

Lemma disk_geometry_lengths (n : Z) :
  (0 <= n)%Z ->
  exists v f, disk_geometry n = Ok (v, f) /\
              length v = S (Z.to_nat n) /\
              length f = S (Z.to_nat n - 1).
Proof.
  intros H. unfold disk_geometry. rewrite linspace_ring by exact H. cbn [rbind].
  eexists _, _. split; [reflexivity|].
  split.
  - cbn [length map]. unfold np_stack2.
    rewrite length_map, length_zip_with, !length_map, length_seq. lia.
  - rewrite length_app, length_map, length_seq. cbn. lia.
Qed.

(** C8 (amended).  Generation has no lower bound on the counts.  A count
    [n >= 0] gives a side wall of [2n] vertices and [2n] faces and a disk
    of [n + 1] vertices and [max n 1] faces, so that the two blocks of
    [refresh] return whenever both counts are non-negative; a negative
    count makes numpy's [linspace] raise [ValueError]. *)
Theorem generation_outcome (n : Z) :
  ((0 <= n)%Z ->
   exists v f v' f',
     side_geometry n = Ok (v, f) /\
     length v = (2 * Z.to_nat n)%nat /\ length f = (2 * Z.to_nat n)%nat /\
     disk_geometry n = Ok (v', f') /\
     length v' = S (Z.to_nat n) /\ length f' = Nat.max (Z.to_nat n) 1) /\
  ((n < 0)%Z ->
   side_geometry n = Raise ValueError /\ disk_geometry n = Raise ValueError) /\
  (forall s : Deferred.Store,
     (0 <= Deferred._segs (Deferred.self s))%Z ->
     (0 <= Deferred._slices (Deferred.self s))%Z ->
     exists s', Deferred.ensure_geometry s = (Ok tt, s')).
Proof.
  split; [|split].
  - intros H.
    destruct (side_geometry_lengths n H) as (v & f & E & Hv & Hf).
    destruct (disk_geometry_lengths n H) as (v' & f' & E' & Hv' & Hf').
    exists v, f, v', f'. repeat split; auto. lia.
  - intros H. unfold side_geometry, disk_geometry, np_linspace.
    destruct (n <? 0)%Z eqn:E; [split; reflexivity | lia].
  - intros s. apply ensure_geometry_nonneg.
Qed.

Lemma generation_outcome_witness :
  (0 <= 2)%Z /\
  exists v f, side_geometry 2 = Ok (v, f) /\ length v = 4%nat /\ length f = 4%nat.
Proof.
  split; [lia|].
  destruct (proj1 (generation_outcome 2) ltac:(lia))
    as (v & f & _ & _ & E & Hv & Hf & _).
  exists v, f. auto.
Defined.

(** Counts of two are accepted: the first refresh of a collection built
    with two segments and two slices returns. *)
Lemma two_segments_accepted : ~ generation_rejects 2 2.
Proof.
  intros H. destruct H as (e & w' & E); [left; lia|].
  vm_compute in E. discriminate E.
Qed.




(** C6, at a failing input.  On the collection of the bulk script, which
    holds three instances, [set_transforms] called with three new
    positions and a single radius stores the new positions and only then
    fails on the radii: the call raises [AssertionError], the stored
    positions are the new ones, and the visuals were not given them.  A
    call of [set_colors] with a single color fails before any write. *)
Theorem set_transforms_writes_before_failing :
  exists c g,
    bulk_main = (Ok c, g) /\
    Bulk.set_transforms (Some [V3 1 1 1; V3 2 2 2; V3 3 3 3]) (Some [1%R])
      None None {| Bulk.glob := g; Bulk.self := c |}
    = (Raise AssertionError,
       {| Bulk.glob := g;
          Bulk.self := Bulk.set_positions [V3 1 1 1; V3 2 2 2; V3 3 3 3] c |}) /\
    Bulk.positions c = bulk_positions /\
    Bulk.positions (Bulk.set_positions [V3 1 1 1; V3 2 2 2; V3 3 3 3] c)
    <> Bulk.positions c /\
    Bulk.set_colors [RGBA 1 1 1 1] {| Bulk.glob := g; Bulk.self := c |}
    = (Raise AssertionError, {| Bulk.glob := g; Bulk.self := c |}).
Proof.
  destruct (init_ok bulk_positions bulk_radii bulk_heights bulk_orientations
              bulk_colors 32 32 Bulk.fresh) as [k E];
    try reflexivity; try (right; lia).
  eexists _, _. split; [exact E|].
  split; [apply set_transforms_bad_radii; cbn; [reflexivity | lia]|].
  split; [reflexivity|].
  split; [|apply set_colors_bad_length; cbn; lia].
  cbn. intros [= H _ _ _ _ _ _ _ _]. lra.
Qed.

(** C9, at a failing input.  A collection asking for 32 segments and a
    collection asking for 8 are created, filled and refreshed in that
    order.  The second one, built with 8 segments, is bound to visual 2,
    and that side wall has the vertices of the first one's (visual 0), 64
    of them, although 8 segments generate 16 vertices: the class attribute
    was filled by the first refresh and the second refresh did not look at
    its own count. *)
Theorem second_collection_gets_first_geometry :
  exists c1 m0 m2 v8 f8,
    Deferred.w_objs (Deferred.run Deferred.empty_world two_collections) !! 1%nat
    = Some c1 /\
    Deferred._segs c1 = 8%Z /\ Deferred._side_mesh c1 = Some 2%nat /\
    Deferred.w_heap (Deferred.run Deferred.empty_world two_collections) !! 0%nat
    = Some m0 /\
    Deferred.w_heap (Deferred.run Deferred.empty_world two_collections) !! 2%nat
    = Some m2 /\
    vertices m2 = vertices m0 /\
    (length <$> vertices m2) = Some 64%nat /\
    side_geometry 8 = Ok (v8, f8) /\ length v8 = 16%nat.
Proof.
  eexists _, _, _, _, _.
  split; [vm_compute; reflexivity|].
  split; [reflexivity|]. split; [reflexivity|].
  split; [vm_compute; reflexivity|].
  split; [vm_compute; reflexivity|].
  split; [reflexivity|]. split; [reflexivity|].
  split; [vm_compute; reflexivity|]. reflexivity.
Qed.
End Rejections.

(** ** The disk mesh *)

Section DiskMesh.

Lemma map_lookup {A B} (f : A -> B) (l : list A) (i : nat) :
  map f l !! i = f <$> l !! i.
Proof. exact (list_lookup_fmap f l i). Qed.

Lemma rim_lookup (angles : list R) (i : nat) (a : R) :
  angles !! i = Some a ->
  np_stack2 (map cos angles) (map sin angles) !! i = Some (cos a, sin a).
Proof.
  intros Ha. unfold np_stack2. rewrite lookup_zip_with.
  change (map cos angles) with (cos <$> angles).
  change (map sin angles) with (sin <$> angles).
  rewrite !list_lookup_fmap, Ha. reflexivity.
Qed.

(** X1.  For [K >= 1] slices the disk generation returns [K + 1]
    vertices, the centre at the origin followed by the rim point [j]
    ([1 <= j <= K]) at angle [2 pi (j - 1) / K] in the plane [z = 0], and
    [K] faces, the fan [(0, j, j + 1)] for [1 <= j < K] closed by
    [(0, K, 1)]; every face starts at the centre and names rim vertices
    only.  With no slice at all the generation still returns, a lone
    centre and the face [(0, 0, 1)], whose last index names no vertex. *)
Theorem disk_mesh_shape (slices : Z) :
  (1 <= slices)%Z ->
  exists verts idx,
    disk_geometry slices = Ok (verts, idx) /\
    length verts = S (Z.to_nat slices) /\
    verts !! 0%nat = Some (V3 0 0 0) /\
    (forall j, (1 <= j <= Z.to_nat slices)%nat ->
       verts !! j
       = Some (V3 (cos (2 * PI * INR (j - 1) / INR (Z.to_nat slices)))
                  (sin (2 * PI * INR (j - 1) / INR (Z.to_nat slices))) 0)) /\
    length idx = Z.to_nat slices /\
    (forall j, (1 <= j < Z.to_nat slices)%nat ->
       idx !! (j - 1)%nat = Some (Face 0 j (j + 1))) /\
    idx !! (Z.to_nat slices - 1)%nat = Some (Face 0 (Z.to_nat slices) 1) /\
    (forall f, f ∈ idx ->
       f0 f = 0%nat /\ (1 <= f1 f <= Z.to_nat slices)%nat /\
       (1 <= f2 f <= Z.to_nat slices)%nat) /\
    disk_geometry 0 = Ok ([V3 0 0 0], [Face 0 0 1]).
Proof.
  intros H1. unfold disk_geometry at 1.
  rewrite linspace_ring by lia. cbn [rbind].
  set (K := Z.to_nat slices). assert (HK : (1 <= K)%nat) by (unfold K; lia).
  set (angles := map (fun i => INR i * ((2 * PI - 0) / INR K) + 0) (seq 0 K)).
  assert (Hang : forall i, (i < K)%nat ->
            angles !! i = Some (2 * PI * INR i / INR K)).
  { intros i Hi. unfold angles.
    change (map ?f ?l) with (f <$> l).
    rewrite list_lookup_fmap, lookup_seq_lt by exact Hi. cbn.
    rewrite ring_angle by lia. reflexivity. }
  assert (Hlen : length angles = K)
    by (unfold angles; rewrite length_map, length_seq; reflexivity).
  eexists _, _. split; [reflexivity|].
  split; [|split; [|split; [|split; [|split; [|split; [|split]]]]]].
  - cbn [length map]. unfold np_stack2.
    rewrite length_map, length_zip_with, !length_map. lia.
  - reflexivity.
  - intros j Hj. destruct j as [|j]; [lia|].
    rewrite map_lookup. change (((0, 0) :: ?l) !! S j) with (l !! j). rewrite (rim_lookup _ _ _ (Hang j ltac:(lia))).
    cbn. replace (j - 0)%nat with j by lia. reflexivity.
  - rewrite length_app, length_map, length_seq. cbn. lia.
  - intros j Hj. rewrite lookup_app_l by (rewrite length_map, length_seq; lia).
    rewrite map_lookup, lookup_seq_lt by lia. cbn.
    f_equal. f_equal; lia.
  - rewrite lookup_app_r by (rewrite length_map, length_seq; lia).
    rewrite length_map, length_seq, Nat.sub_diag. reflexivity.
  - intros f Hf. apply elem_of_app in Hf as [Hf|Hf].
    + apply list_elem_of_In, in_map_iff in Hf as (j & <- & Hj).
      apply in_seq in Hj. cbn. lia.
    + apply list_elem_of_singleton in Hf as ->. cbn. lia.
  - unfold disk_geometry, np_linspace. cbn. reflexivity.
Qed.

Lemma disk_mesh_shape_witness :
  (1 <= 3)%Z /\
  exists verts idx,
    disk_geometry 3 = Ok (verts, idx) /\ length verts = 4%nat /\
    length idx = 3%nat.
Proof.
  split; [lia|].
  destruct (disk_mesh_shape 3 ltac:(lia))
    as (verts & idx & E & Hv & _ & _ & Hi & _).
  exists verts, idx. auto.
Defined.

End DiskMesh.

(** ** The bulk collection: construction and setters that succeed *)

Section BulkSync.
Import Bulk.

Lemma assert_false {St A} (k : unit -> M St A) (b : bool) (s : St) :
  b = false -> bind (assert_ b) k s = (Raise AssertionError, s).
Proof. intros ->. reflexivity. Qed.

(** X2.  [__init__] given an array whose number of rows differs from
    that of [positions] raises [AssertionError] before anything else
    happens: no geometry is generated or cached and no visual is
    constructed. *)
Theorem init_rejects_unequal_lengths (positions : list vec3)
    (radii heights : list R) (orientations : list mat3) (colors : list rgba)
    (segs slices : Z) (g : Globals) :
  length radii <> length positions \/ length heights <> length positions \/
  length orientations <> length positions \/ length colors <> length positions ->
  init positions radii heights orientations colors segs slices g
  = (Raise AssertionError, g).
Proof.
  intros H. unfold init.
  rewrite assert_true by (apply shape_is_true; reflexivity).
  destruct (decide (length radii = length positions)) as [Er|Er];
    [rewrite assert_true by (apply shape_is_true; exact Er)
    |apply assert_false, shape_is_false, Er].
  destruct (decide (length heights = length positions)) as [Eh|Eh];
    [rewrite assert_true by (apply shape_is_true; exact Eh)
    |apply assert_false, shape_is_false, Eh].
  destruct (decide (length orientations = length positions)) as [Eo|Eo];
    [rewrite assert_true by (apply shape_is_true; exact Eo)
    |apply assert_false, shape_is_false, Eo].
  destruct (decide (length colors = length positions)) as [Ec|Ec];
    [|apply assert_false, shape_is_false, Ec].
  tauto.
Qed.

Lemma init_rejects_unequal_lengths_witness :
  init [V3 0 0 0; V3 1 0 0] [1] [1; 1] [np_eye; np_eye]
       [RGBA 1 1 1 1; RGBA 1 1 1 1] 32 32 fresh
  = (Raise AssertionError, fresh).
Proof.
  apply init_rejects_unequal_lengths. left. cbn. lia.
Defined.



End BulkSync.

Section BulkSetters.
Import Bulk.

Lemma set_colors_ok (new_colors : list rgba) (s : Store) :
  length new_colors = N (self s) ->
  set_colors new_colors s
  = (Ok tt,
     {| glob :=
          with_heap (fun h =>
            alter (set_instance_colors (new_colors ++ new_colors))
                  (_cap_mesh (self s))
              (alter (set_instance_colors new_colors) (_side_mesh (self s)) h))
            (glob s);
        self := set_colors_field new_colors (self s) |}).
Proof.
  intros H. destruct s as [g c]. cbn [self glob] in *.
  unfold set_colors, bind, gets. cbn [self].
  rewrite shape_is_true by exact H. reflexivity.
Qed.

Lemma replace_if_given_ok {A} (a : option (list A))
    (setter : list A -> Collection -> Collection) (s : Store) :
  rows_if_given a (N (self s)) ->
  replace_if_given a setter s
  = (Ok tt, with_self (fun c => match a with Some v => setter v c | None => c end) s).
Proof.
  destruct a as [v|]; cbn; intros H.
  - apply replace_if_given_good, H.
  - destruct s. reflexivity.
Qed.

Lemma with_transforms_N p r h o (c : Collection) :
  N (with_transforms p r h o c) = N c.
Proof. destruct p, r, h, o; reflexivity. Qed.

Lemma set_transforms_ok p r h o (s : Store) :
  rows_if_given p (N (self s)) -> rows_if_given r (N (self s)) ->
  rows_if_given h (N (self s)) -> rows_if_given o (N (self s)) ->
  let c := with_transforms p r h o (self s) in
  length (positions c) = N c -> length (radii c) = N c ->
  length (heights c) = N c -> length (orientations c) = N c ->
  set_transforms p r h o s
  = (Ok tt,
     {| glob :=
          with_heap (fun hp =>
            alter (fun m =>
                     set_instance_transforms
                       (snd (fst (bulk_caps (positions c) (radii c) (heights c)
                                    (orientations c) (colors c))))
                       (set_instance_positions
                          (fst (fst (bulk_caps (positions c) (radii c)
                                       (heights c) (orientations c) (colors c))))
                          m))
                  (_cap_mesh c)
              (alter (fun m =>
                        set_instance_transforms
                          (snd (fst (bulk_lateral (positions c) (radii c)
                                       (heights c) (orientations c) (colors c))))
                          (set_instance_positions (positions c) m))
                     (_side_mesh c) hp))
            (glob s);
        self := c |}).
Proof.
  intros Hp Hr Hh Ho c Lp Lr Lh Lo. destruct s as [g c0]. cbn [self glob] in *.
  unfold set_transforms.
  unfold bind at 1. rewrite replace_if_given_ok by exact Hp.
  unfold bind at 1. rewrite replace_if_given_ok
    by (cbn [self with_self]; destruct p; exact Hr).
  unfold bind at 1. rewrite replace_if_given_ok
    by (cbn [self with_self]; destruct p, r; exact Hh).
  unfold bind at 1. rewrite replace_if_given_ok
    by (cbn [self with_self]; destruct p, r, h; exact Ho).
  unfold with_self. cbn [self glob].
  fold (with_transforms p r h o c0). fold c.
  unfold bind at 1, gets at 1. cbn [self].
  unfold bind at 1, lift at 1.
  rewrite side_transforms_ok by auto.
  unfold bind at 1, update_mesh at 1, modify at 1.
  unfold bind at 1, update_mesh at 1, modify at 1.
  rewrite cap_ends_eq.
  unfold bind at 1, lift at 1.
  rewrite cap_transforms_ok by auto.
  unfold bind at 1, update_mesh at 1, modify at 1.
  unfold update_mesh, modify, with_glob, with_heap. cbn [glob self heap cls].
  rewrite !list_alter_alter_eq. reflexivity.
Qed.

End BulkSetters.

Section BulkSetterTheorems.
Import Bulk.

Lemma batch_colors_keep (p : list vec3) (x : list mat3) (m : InstancedMesh)
    (b : batch) :
  batch_of m = b ->
  batch_of (set_instance_transforms x (set_instance_positions p m))
  = (p, x, snd b).
Proof. intros <-. reflexivity. Qed.



Lemma bulk_main_synced :
  exists c g', bulk_main = (Ok c, g') /\ bulk_synced {| glob := g'; self := c |} /\
               N c = 3%nat.
Proof.
  destruct (init_ok bulk_positions bulk_radii bulk_heights bulk_orientations
              bulk_colors 32 32 fresh) as [k E];
    try reflexivity; try (right; lia).
  eexists _, _. split; [exact E|]. split; [|reflexivity].
  unfold bulk_synced. cbn [glob self heap N Bulk.positions Bulk.radii
    Bulk.heights Bulk.orientations Bulk.colors _side_mesh _cap_mesh fresh].
  repeat (split; [first [reflexivity | lia]|]).
  eexists _, _. repeat split.
Qed.


(** X5.  On a collection whose visuals mirror its arrays,
    [set_transforms] given arrays of [N] rows (any of the four may be
    left out) returns, stores the arrays it was given and hands the
    recomputed placements and transforms to both visuals, so that the
    visuals mirror the arrays again; the colors, the class attributes,
    the geometry of the two visuals and every other visual are left as
    they were. *)
Theorem set_transforms_keeps_sync p r h o (s : Store) :
  bulk_synced s ->
  rows_if_given p (N (self s)) -> rows_if_given r (N (self s)) ->
  rows_if_given h (N (self s)) -> rows_if_given o (N (self s)) ->
  exists s',
    set_transforms p r h o s = (Ok tt, s') /\
    bulk_synced s' /\
    positions (self s') = default (positions (self s)) p /\
    radii (self s') = default (radii (self s)) r /\
    heights (self s') = default (heights (self s)) h /\
    orientations (self s') = default (orientations (self s)) o /\
    colors (self s') = colors (self s) /\
    cls (glob s') = cls (glob s) /\
    length (heap (glob s')) = length (heap (glob s)) /\
    (forall i m, heap (glob s) !! i = Some m ->
       exists m', heap (glob s') !! i = Some m' /\
                  vertices m' = vertices m /\ faces m' = faces m /\
                  instance_colors m' = instance_colors m /\
                  (i <> _side_mesh (self s) -> i <> _cap_mesh (self s) ->
                   m' = m)).
Proof.
  intros (Lp & Lr & Lh & Lo & Lc & Hne & ms & mc & Hms & Hmc & Bs & Bc)
    Hp Hr Hh Ho.
  set (c' := with_transforms p r h o (self s)).
  assert (Fp : positions c' = default (positions (self s)) p)
    by (unfold c'; destruct p, r, h, o; reflexivity).
  assert (Fr : radii c' = default (radii (self s)) r)
    by (unfold c'; destruct p, r, h, o; reflexivity).
  assert (Fh : heights c' = default (heights (self s)) h)
    by (unfold c'; destruct p, r, h, o; reflexivity).
  assert (Fo : orientations c' = default (orientations (self s)) o)
    by (unfold c'; destruct p, r, h, o; reflexivity).
  assert (Fc : colors c' = colors (self s))
    by (unfold c'; destruct p, r, h, o; reflexivity).
  assert (Fs : _side_mesh c' = _side_mesh (self s))
    by (unfold c'; destruct p, r, h, o; reflexivity).
  assert (Fm : _cap_mesh c' = _cap_mesh (self s))
    by (unfold c'; destruct p, r, h, o; reflexivity).
  assert (FN : N c' = N (self s)) by apply with_transforms_N.
  assert (Lp' : length (positions c') = N c')
    by (rewrite Fp, FN; destruct p; cbn; auto).
  assert (Lr' : length (radii c') = N c')
    by (rewrite Fr, FN; destruct r; cbn; auto).
  assert (Lh' : length (heights c') = N c')
    by (rewrite Fh, FN; destruct h; cbn; auto).
  assert (Lo' : length (orientations c') = N c')
    by (rewrite Fo, FN; destruct o; cbn; auto).
  eexists. split; [apply (set_transforms_ok p r h o s); assumption|].
  fold c'. cbn [self glob]. unfold with_heap. cbn [cls heap].
  rewrite Fs, Fm.
  split; [|repeat (split; [assumption || reflexivity|])]; [|split].
  - unfold bulk_synced. cbn [self glob heap].
    rewrite Fs, Fm, Fc, FN in *.
    repeat (split; [assumption|]).
    unfold handle in *. eexists _, _.
    split; [|split].
    + rewrite list_lookup_alter_ne by (intros E; apply Hne; symmetry; exact E).
      rewrite list_lookup_alter_eq, Hms. reflexivity.
    + rewrite list_lookup_alter_eq.
      rewrite list_lookup_alter_ne, Hmc by exact Hne. reflexivity.
    + split.
      * rewrite (batch_colors_keep _ _ _ _ Bs). reflexivity.
      * rewrite (batch_colors_keep _ _ _ _ Bc). reflexivity.
  - rewrite !length_alter. reflexivity.
  - intros i m Hm. unfold handle in *.
    destruct (decide (i = _cap_mesh (self s))) as [->|Hc].
    + rewrite list_lookup_alter_eq, list_lookup_alter_ne, Hm by auto. cbn.
      eexists. split; [reflexivity|]. repeat split. congruence.
    + rewrite list_lookup_alter_ne by auto.
      destruct (decide (i = _side_mesh (self s))) as [->|Hs].
      * rewrite list_lookup_alter_eq, Hm. cbn.
        eexists. split; [reflexivity|]. repeat split. congruence.
      * rewrite list_lookup_alter_ne, Hm by auto.
        eexists. split; [reflexivity|]. repeat split.
Qed.

Lemma set_transforms_keeps_sync_witness :
  exists c g' s',
    bulk_main = (Ok c, g') /\
    set_transforms None (Some [1; 1; 1]) None None
      {| glob := g'; self := c |} = (Ok tt, s') /\
    bulk_synced s' /\ radii (self s') = [1; 1; 1].
Proof.
  destruct bulk_main_synced as (c & g' & E & Hsync & HN).
  destruct (set_transforms_keeps_sync None (Some [1; 1; 1]) None None
              {| glob := g'; self := c |} Hsync)
    as (s' & E' & Hs' & _ & Hr & _); cbn [rows_if_given self]; auto.
  exists c, g', s'. auto.
Defined.

(** X6.  On a collection whose visuals mirror its arrays, handing back
    what is stored changes nothing: [set_transforms] with no array given
    and [set_colors] with the stored colors both return the store they
    started from. *)
Theorem setters_with_stored_arrays_change_nothing (s : Store) :
  bulk_synced s ->
  set_transforms None None None None s = (Ok tt, s) /\
  set_colors (colors (self s)) s = (Ok tt, s).
Proof.
  intros (Lp & Lr & Lh & Lo & Lc & Hne & ms & mc & Hms & Hmc & Bs & Bc).
  split.
  - rewrite (set_transforms_ok None None None None s); cbn; auto.
    destruct s as [[k hp] c]. cbn [self glob heap cls] in *.
    unfold with_heap. cbn [cls heap]. do 3 f_equal.
    rewrite (alter_fixed _ _ _ ms Hms).
    + apply (alter_fixed _ _ _ mc Hmc).
      destruct mc; cbn in *. injection Bc as -> -> _. reflexivity.
    + destruct ms; cbn in *. injection Bs as -> -> _. reflexivity.
  - rewrite set_colors_ok by exact Lc.
    destruct s as [[k hp] c]. cbn [self glob heap cls] in *.
    unfold with_heap. cbn [cls heap]. f_equal. f_equal.
    + f_equal. rewrite (alter_fixed _ _ _ ms Hms).
      * apply (alter_fixed _ _ _ mc Hmc).
        destruct mc; cbn in *. injection Bc as _ _ ->. reflexivity.
      * destruct ms; cbn in *. injection Bs as _ _ ->. reflexivity.
    + destruct c. reflexivity.
Qed.

Lemma setters_with_stored_arrays_change_nothing_witness :
  exists c g',
    bulk_main = (Ok c, g') /\
    set_transforms None None None None {| glob := g'; self := c |}
    = (Ok tt, {| glob := g'; self := c |}).
Proof.
  destruct bulk_main_synced as (c & g' & E & Hsync & HN).
  exists c, g'. split; [exact E|].
  apply (setters_with_stored_arrays_change_nothing _ Hsync).
Defined.

End BulkSetterTheorems.

(** ** Who owns which visual *)

Section Ownership.
Import Deferred.

Lemma flat_map_insert {A B} (f : A -> list B) (l : list A) (i : nat) (x y : A) :
  l !! i = Some x ->
  flat_map f (<[i:=y]> l)
  = flat_map f (take i l) ++ f y ++ flat_map f (drop (S i) l) /\
  flat_map f l = flat_map f (take i l) ++ f x ++ flat_map f (drop (S i) l).
Proof.
  intros H. split.
  - rewrite insert_take_drop by (eapply lookup_lt_Some, H).
    rewrite flat_map_app. reflexivity.
  - rewrite <- (take_drop_middle l i x H) at 1.
    rewrite flat_map_app. reflexivity.
Qed.

Lemma owned_insert_same (l : list Collection) (i : nat) (x y : Collection) :
  l !! i = Some x -> owned y = owned x ->
  flat_map owned (<[i:=y]> l) = flat_map owned l.
Proof.
  intros H E. destruct (flat_map_insert owned l i x y H) as [-> ->].
  rewrite E. reflexivity.
Qed.

Lemma owned_insert_new (l : list Collection) (i : nat) (x y : Collection) :
  l !! i = Some x -> owned x = [] ->
  flat_map owned (<[i:=y]> l) ≡ₚ flat_map owned l ++ owned y.
Proof.
  intros H E. destruct (flat_map_insert owned l i x y H) as [-> ->].
  rewrite E. cbn [app].
  rewrite <- app_assoc. apply Permutation_app_head, Permutation_app_comm.
Qed.

Lemma owned_lookup (l : list Collection) (i : nat) (c : Collection) (h : handle) :
  l !! i = Some c -> h ∈ owned c -> h ∈ flat_map owned l.
Proof.
  intros H Hin. apply list_elem_of_In, in_flat_map.
  exists c. split; apply list_elem_of_In; [eapply list_elem_of_lookup_2, H | exact Hin].
Qed.

Lemma owned_disjoint (l : list Collection) (i j : nat) (a b : Collection)
    (h : handle) :
  NoDup (flat_map owned l) -> i <> j ->
  l !! i = Some a -> l !! j = Some b -> h ∈ owned a -> h ∈ owned b -> False.
Proof.
  revert i j. induction l as [|x l IH]; intros i j Hnd Hij Hi Hj Ha Hb.
  - discriminate.
  - cbn [flat_map] in Hnd. apply NoDup_app in Hnd as (_ & Hx & Hl).
    destruct i as [|i], j as [|j]; cbn in Hi, Hj.
    + congruence.
    + injection Hi as ->. apply (Hx h Ha). eapply owned_lookup; eauto.
    + injection Hj as ->. apply (Hx h Hb). eapply owned_lookup; eauto.
    + apply (IH i j); auto.
Qed.

Lemma owned_bound (w : World) (c : Collection) :
  bound_ok w c ->
  (is_bound c = false /\ owned c = []) \/
  (exists hs hd, _side_mesh c = Some hs /\ _disk_mesh c = Some hd /\
                 is_bound c = true /\ owned c = [hs; hd]).
Proof.
  unfold bound_ok, is_bound, owned.
  destruct (_side_mesh c), (_disk_mesh c); intros H; try contradiction.
  - right. eauto 7.
  - left. auto.
Qed.

Lemma owned_count (w : World) (l : list Collection) :
  (forall i c, l !! i = Some c -> bound_ok w c) ->
  length (flat_map owned l) = (2 * bound_count l)%nat.
Proof.
  unfold bound_count. induction l as [|c l IH]; intros H; [reflexivity|].
  cbn [flat_map List.filter]. rewrite length_app, IH.
  2:{ intros i c' Hc'. apply (H (S i)), Hc'. }
  destruct (owned_bound w c (H 0%nat c eq_refl))
    as [[-> ->] | (hs & hd & _ & _ & -> & ->)]; cbn [length]; lia.
Qed.

Lemma alter_batch_geometry (b : batch) (i h : nat) (l : list InstancedMesh)
    (m : InstancedMesh) :
  l !! h = Some m ->
  exists m', alter (with_batch b) i l !! h = Some m' /\
             vertices m' = vertices m /\ faces m' = faces m.
Proof.
  intros H. destruct (decide (i = h)) as [->|Hne].
  - rewrite list_lookup_alter_eq, H. eexists. split; [reflexivity|].
    destruct (with_batch_geometry b m) as (? & ? & _). auto.
  - rewrite list_lookup_alter_ne, H by exact Hne. eauto.
Qed.


Lemma accounted_cached (w : World) (cid : nat) (c : Collection) (hs : handle) :
  well_formed w -> w_objs w !! cid = Some c -> _side_mesh c = Some hs ->
  is_Some (_side_vertices (w_cls w)) /\ is_Some (_disk_vertices (w_cls w)).
Proof.
  intros Hwf Hc Hs. pose proof (Hwf cid c Hc) as Hb. unfold bound_ok in Hb.
  rewrite Hs in Hb. destruct (_disk_mesh c); [|contradiction].
  destruct Hb as (_ & _ & _ & _ & ? & ?). auto.
Qed.

Lemma refresh_case_accounted (w w' : World) (cid : nat) (c : Collection)
    (r : result unit) :
  well_formed w -> accounted w -> w_objs w !! cid = Some c ->
  refresh_case w cid c r w' -> accounted w'.
Proof.
  intros Hwf [Hperm Hgeo] Hc Hcase.
  destruct Hcase as [He | k Hne Eg | k Hne Es Ed Eg | hs hd Hne Es Ed].
  - split; assumption.
  - split; [exact Hperm|]. cbn [w_objs w_heap w_cls].
    intros j cj hs hd Hj Hs Hd. exfalso.
    destruct (accounted_cached w j cj hs Hwf Hj Hs) as [Cs Cd].
    eapply cached_not_raise; eauto.
  - split; cbn [w_objs w_heap w_cls].
    + rewrite owned_insert_new with (x := c); [|exact Hc|].
      2:{ unfold owned. rewrite Es, Ed. reflexivity. }
      rewrite length_app. cbn [length].
      replace (length (w_heap w) + 2)%nat with (S (S (length (w_heap w)))) by lia.
      rewrite !seq_S. cbn [Nat.add]. rewrite <- app_assoc. cbn [app].
      apply Permutation_app; [exact Hperm | reflexivity].
    + intros j cj hs hd Hj Hs Hd.
      destruct (decide (cid = j)) as [<-|Hneq].
      * rewrite list_lookup_insert_eq in Hj by (eapply lookup_lt_Some, Hc).
        injection Hj as <-. cbn in Hs, Hd.
        injection Hs as <-. injection Hd as <-.
        eexists _, _.
        split; [apply list_lookup_middle; reflexivity|].
        split.
        { rewrite lookup_app_r by lia.
          replace (S (length (w_heap w)) - length (w_heap w))%nat with 1%nat by lia.
          reflexivity. }
        repeat split.
      * rewrite list_lookup_insert_ne in Hj by exact Hneq.
        destruct (accounted_cached w j cj hs Hwf Hj Hs) as [Cs Cd].
        unfold store_of in Eg. rewrite ensure_geometry_cached in Eg by assumption.
        injection Eg as <-.
        destruct (Hgeo j cj hs hd Hj Hs Hd) as (ms & md & Hms & Hmd & G).
        exists ms, md.
        rewrite !lookup_app_l by (eapply lookup_lt_Some; eassumption).
        auto.
  - split; cbn [w_objs w_heap w_cls].
    + rewrite !length_alter. exact Hperm.
    + intros j cj hs' hd' Hj Hs Hd.
      destruct (Hgeo j cj hs' hd' Hj Hs Hd)
        as (ms & md & Hms & Hmd & G1 & G2 & G3 & G4).
      destruct (alter_batch_geometry (lateral_of (_instances c)) hs hs' _ _ Hms)
        as (ms1 & Hms1 & V1 & F1).
      destruct (alter_batch_geometry (caps_of (_instances c)) hd hs' _ _ Hms1)
        as (ms2 & Hms2 & V2 & F2).
      destruct (alter_batch_geometry (lateral_of (_instances c)) hs hd' _ _ Hmd)
        as (md1 & Hmd1 & V3 & F3).
      destruct (alter_batch_geometry (caps_of (_instances c)) hd hd' _ _ Hmd1)
        as (md2 & Hmd2 & V4 & F4).
      exists ms2, md2. split; [exact Hms2|]. split; [exact Hmd2|].
      repeat split; congruence.
Qed.

Lemma step_accounted (w : World) (k : call) :
  well_formed w -> accounted w -> accounted (step w k).
Proof.
  intros Hwf Hacc. unfold step.
  destruct k as [segs slices | cid p r h col o | cid].
  - destruct Hacc as [Hperm Hgeo]. cbn. split; cbn [w_objs w_heap w_cls].
    + rewrite flat_map_app. cbn. rewrite !app_nil_r. exact Hperm.
    + intros j cj hs hd Hj Hs Hd.
      apply lookup_app_Some in Hj as [Hj | [_ Hj]].
      * eapply Hgeo; eauto.
      * apply list_lookup_singleton_Some in Hj as [_ <-]. discriminate.
  - cbn. unfold invoke.
    destruct (w_objs w !! cid) as [c|] eqn:Hc; [|exact Hacc].
    destruct Hacc as [Hperm Hgeo]. cbn. split; cbn [w_objs w_heap w_cls].
    + rewrite owned_insert_same with (x := c); auto.
    + intros j cj hs hd Hj Hs Hd.
      destruct (decide (cid = j)) as [<-|Hneq].
      * rewrite list_lookup_insert_eq in Hj by (eapply lookup_lt_Some, Hc).
        injection Hj as <-. cbn in Hs, Hd. eapply Hgeo; eauto.
      * rewrite list_lookup_insert_ne in Hj by exact Hneq. eapply Hgeo; eauto.
  - destruct (w_objs w !! cid) as [c|] eqn:Hc.
    + destruct (exec_refresh w cid c Hc (Hwf cid c Hc)) as (r & w' & -> & Hcase).
      eapply refresh_case_accounted; eauto.
    + cbn. unfold invoke. rewrite Hc. exact Hacc.
Qed.

Lemma reachable_accounted (w : World) : reachable w -> accounted w.
Proof.
  intros [p ->]. induction p as [|k p IH] using rev_ind.
  - split; [reflexivity|]. intros cid c hs hd H. discriminate.
  - rewrite run_snoc. apply step_accounted; [|exact IH].
    apply reachable_well_formed. exists p. reflexivity.
Qed.

End Ownership.

Section OwnershipTheorems.
Import Deferred.

Lemma small_world_reachable : reachable small_world.
Proof. exists small_calls. reflexivity. Qed.

Lemma owned_lt (w : World) (c : Collection) (h : handle) :
  bound_ok w c -> h ∈ owned c -> (h < length (w_heap w))%nat.
Proof.
  intros Hb Hin.
  destruct (owned_bound w c Hb) as [[_ E] | (hs & hd & Es & Ed & _ & E)];
    rewrite E in Hin.
  - apply elem_of_nil in Hin. contradiction.
  - unfold bound_ok in Hb. rewrite Es, Ed in Hb.
    destruct Hb as (_ & ? & ? & _).
    apply elem_of_cons in Hin as [->|Hin]; [assumption|].
    apply list_elem_of_singleton in Hin as ->. assumption.
Qed.

(** X7.  In every world a program can reach, the visuals are exactly
    the ones the bound collections hold: there are two visuals per bound
    collection, however many cylinders were added and however often
    [refresh] ran; every visual belongs to a collection; and no visual
    belongs to two collections. *)
Theorem two_visuals_per_bound_collection (w : World) :
  reachable w ->
  length (w_heap w) = (2 * bound_count (w_objs w))%nat /\
  (forall h, (h < length (w_heap w))%nat ->
     exists cid c, w_objs w !! cid = Some c /\ h ∈ owned c) /\
  (forall cid cid' c c' h, cid <> cid' ->
     w_objs w !! cid = Some c -> w_objs w !! cid' = Some c' ->
     h ∈ owned c -> h ∉ owned c').
Proof.
  intros Hr.
  pose proof (reachable_well_formed w Hr) as Hwf.
  destruct (reachable_accounted w Hr) as [Hperm _].
  split; [|split].
  - rewrite <- (owned_count w) by exact Hwf.
    rewrite (Permutation_length Hperm). symmetry. apply length_seq.
  - intros h Hlt.
    assert (Hin : h ∈ flat_map owned (w_objs w)).
    { rewrite Hperm. apply elem_of_seq. lia. }
    apply list_elem_of_In, in_flat_map in Hin as (c & Hc & Hh).
    apply list_elem_of_In, list_elem_of_lookup_1 in Hc as [cid Hc].
    exists cid, c. split; [exact Hc | apply list_elem_of_In, Hh].
  - intros cid cid' c c' h Hne Hc Hc' Hh Hh'.
    apply (owned_disjoint (w_objs w) cid cid' c c' h); auto.
    rewrite Hperm. apply NoDup_seq.
Qed.

Lemma two_visuals_per_bound_collection_witness :
  length (w_heap small_world) = (2 * bound_count (w_objs small_world))%nat.
Proof.
  apply (two_visuals_per_bound_collection small_world small_world_reachable).
Defined.

(** X8.  In every world a program can reach, each visual is the side
    visual or the cap visual of a collection and carries the mesh held
    by the class attributes at that moment: all side visuals of a
    program share one mesh, and so do all cap visuals. *)
Theorem visuals_share_class_geometry (w : World) (h : handle)
    (m : InstancedMesh) :
  reachable w -> w_heap w !! h = Some m ->
  is_Some (_side_vertices (w_cls w)) /\ is_Some (_disk_vertices (w_cls w)) /\
  exists cid c,
    w_objs w !! cid = Some c /\
    ((_side_mesh c = Some h /\
      vertices m = _side_vertices (w_cls w) /\
      faces m = _side_indices (w_cls w)) \/
     (_disk_mesh c = Some h /\
      vertices m = _disk_vertices (w_cls w) /\
      faces m = _disk_indices (w_cls w))).
Proof.
  intros Hr Hm.
  pose proof (reachable_well_formed w Hr) as Hwf.
  destruct (reachable_accounted w Hr) as [Hperm Hgeo].
  assert (Hin : h ∈ flat_map owned (w_objs w)).
  { rewrite Hperm. apply elem_of_seq. apply lookup_lt_Some in Hm. lia. }
  apply list_elem_of_In, in_flat_map in Hin as (c & Hc & Hh).
  apply list_elem_of_In, list_elem_of_lookup_1 in Hc as [cid Hc].
  apply list_elem_of_In in Hh.
  destruct (owned_bound w c (Hwf cid c Hc))
    as [[_ E] | (hs & hd & Es & Ed & _ & E)]; rewrite E in Hh.
  { apply elem_of_nil in Hh. contradiction. }
  destruct (accounted_cached w cid c hs Hwf Hc Es) as [Cs Cd].
  split; [exact Cs|]. split; [exact Cd|].
  destruct (Hgeo cid c hs hd Hc Es Ed) as (ms & md & Hms & Hmd & G1 & G2 & G3 & G4).
  exists cid, c. split; [exact Hc|].
  apply elem_of_cons in Hh as [->|Hh].
  - left. assert (m = ms) as -> by congruence. auto.
  - apply list_elem_of_singleton in Hh as ->.
    right. assert (m = md) as -> by congruence. auto.
Qed.

Lemma visuals_share_class_geometry_witness :
  exists m, w_heap small_world !! 0%nat = Some m /\
            is_Some (_side_vertices (w_cls small_world)).
Proof.
  eexists. split; [reflexivity|].
  apply (visuals_share_class_geometry small_world 0%nat _
           small_world_reachable eq_refl).
Defined.

(** X9.  A statement of a program changes no collection but the one it
    addresses, and none of the visuals of the others: their queued
    instances, their handles and what their visuals hold stay as they
    were, also when the statement creates visuals or raises. *)
Theorem other_collections_untouched (w : World) (k : call) (cid : nat)
    (c : Collection) :
  reachable w -> w_objs w !! cid = Some c -> target k <> Some cid ->
  w_objs (step w k) !! cid = Some c /\
  forall h, h ∈ owned c -> w_heap (step w k) !! h = w_heap w !! h.
Proof.
  intros Hr Hc Ht.
  pose proof (reachable_well_formed w Hr) as Hwf.
  destruct (reachable_accounted w Hr) as [Hperm _].
  unfold step. destruct k as [segs slices | j p r h col o | j]; cbn in Ht.
  - cbn. split; [|reflexivity].
    apply lookup_app_l_Some, Hc.
  - cbn. unfold invoke.
    destruct (w_objs w !! j) as [cj|] eqn:Hj; cbn; [|auto].
    split; [|reflexivity].
    rewrite list_lookup_insert_ne by congruence. exact Hc.
  - assert (Hne : j <> cid) by congruence.
    destruct (w_objs w !! j) as [cj|] eqn:Hj.
    2:{ cbn. unfold invoke. rewrite Hj. auto. }
    destruct (exec_refresh w j cj Hj (Hwf j cj Hj)) as (r & w' & -> & Hcase).
    destruct Hcase as [He | k' Hn Eg | k' Hn Es Ed Eg | hs hd Hn Es Ed];
      cbn [w_objs w_heap]; auto.
    + split; [rewrite list_lookup_insert_ne by exact Hne; exact Hc|].
      intros h Hh. apply lookup_app_l.
      apply (owned_lt w c h); [apply (Hwf cid c Hc) | exact Hh].
    + split; [exact Hc|]. intros h Hh.
      assert (Hown : owned cj = [hs; hd]).
      { unfold owned. rewrite Es, Ed. reflexivity. }
      assert (NDs : hs <> h).
      { intros ->. apply (owned_disjoint (w_objs w) j cid cj c h); auto.
        - rewrite Hperm. apply NoDup_seq.
        - rewrite Hown. apply elem_of_cons. auto. }
      assert (NDd : hd <> h).
      { intros ->. apply (owned_disjoint (w_objs w) j cid cj c h); auto.
        - rewrite Hperm. apply NoDup_seq.
        - rewrite Hown. apply elem_of_cons. right.
          apply list_elem_of_singleton. reflexivity. }
      rewrite !list_lookup_alter_ne by assumption. reflexivity.
Qed.

Lemma other_collections_untouched_witness :
  exists c, w_objs small_world !! 0%nat = Some c /\
            w_objs (step small_world (New 8 8)) !! 0%nat = Some c.
Proof.
  eexists. split; [reflexivity|].
  apply (other_collections_untouched small_world (New 8 8) 0%nat _
           small_world_reachable eq_refl).
  discriminate.
Defined.





(** X11.  A [refresh] that has to generate a mesh from a negative count
    raises [ValueError] and constructs no visual.  When it is the side
    count, nothing at all has changed; when the side count can be
    generated and the disk count is negative, the side mesh is held by
    the class from then on although the refresh failed. *)
Theorem refresh_negative_count (w : World) (cid : nat) (c : Collection) :
  w_objs w !! cid = Some c -> _instances c <> [] ->
  _side_vertices (w_cls w) = None ->
  ((_segs c < 0)%Z -> exec (Refresh cid) w = Some (Raise ValueError, w)) /\
  ((0 <= _segs c)%Z -> _disk_vertices (w_cls w) = None -> (_slices c < 0)%Z ->
   exists g,
     side_geometry (_segs c) = Ok g /\
     exec (Refresh cid) w
     = Some (Raise ValueError,
             {| w_cls := set_side g (w_cls w); w_heap := w_heap w;
                w_objs := w_objs w |})).
Proof.
  intros Hc Hne Hsv. split.
  - intros Hneg. unfold exec, invoke. rewrite Hc. cbn [mbind option_bind].
    rewrite refresh_nonempty by exact Hne.
    unfold bind at 1, ensure_geometry, bind at 1.
    rewrite ensure_side_eq. cbn [cls self]. rewrite Hsv.
    unfold side_geometry, np_linspace.
    destruct (Z.ltb_spec (_segs c) 0); [|lia]. cbn.
    rewrite list_insert_id by exact Hc. rewrite world_eta. reflexivity.
  - intros Hpos Hdv Hneg.
    destruct (side_geometry (_segs c)) as [g|e] eqn:Eg.
    2:{ pose proof (side_geometry_nonneg _ Hpos) as H. rewrite Eg in H.
        contradiction. }
    exists g. split; [reflexivity|].
    unfold exec, invoke. rewrite Hc. cbn [mbind option_bind].
    rewrite refresh_nonempty by exact Hne.
    unfold bind at 1, ensure_geometry, bind at 1.
    rewrite ensure_side_eq. cbn [cls self]. rewrite Hsv, Eg.
    rewrite ensure_disk_eq. cbn [cls self with_cls set_side _disk_vertices].
    rewrite Hdv.
    unfold disk_geometry, np_linspace.
    destruct (Z.ltb_spec (_slices c) 0); [|lia]. cbn.
    rewrite list_insert_id by exact Hc. reflexivity.
Qed.

Lemma refresh_negative_count_witness :
  exec (Refresh 0)
    (run empty_world [New (-1) 8; AddCylinder 0 (V3 0 0 0) 1 1 (RGBA 1 1 1 1) None])
  = Some (Raise ValueError,
          run empty_world
            [New (-1) 8; AddCylinder 0 (V3 0 0 0) 1 1 (RGBA 1 1 1 1) None]).
Proof.
  eapply (refresh_negative_count _ 0%nat).
  - reflexivity.
  - discriminate.
  - reflexivity.
  - cbn. lia.
Defined.

End OwnershipTheorems.

Section BulkInitFailure.
Import Bulk.



End BulkInitFailure.

(** ** The eager collection, block by block *)

Section EagerBlocks.
Import Eager.

Lemma assign_each_eq {A} (upd : R -> A -> A) (a : list A) (vals : list R) :
  length vals = length a ->
  assign_each upd a vals = Ok (zip_with (fun x v => upd v x) a vals).
Proof.
  intros H. unfold assign_each. destruct (decide _); [reflexivity | contradiction].
Qed.

Lemma diag_fill (radii heights : list R) :
  length heights = length radii ->
  zip_with (fun x v => set22 v x)
    (zip_with (fun x v => set11 v x)
       (zip_with (fun x v => set00 v x) (replicate (length radii) np_eye) radii)
       radii)
    heights
  = zip_with (fun r h => np_diag r r h) radii heights.
Proof.
  revert heights. induction radii as [|r rs IH]; intros [|h hs] H;
    try discriminate H; [reflexivity|].
  cbn [length replicate zip_with]. f_equal. apply IH.
  cbn [length] in H. lia.
Qed.

Lemma diag_transforms_ok (count : nat) (radii heights : list R) :
  length radii = count -> length heights = count ->
  diag_transforms count radii heights
  = Ok (zip_with (fun r h => np_diag r r h) radii heights).
Proof.
  intros <- Hh. unfold diag_transforms.
  rewrite assign_each_eq by (rewrite length_replicate; reflexivity).
  cbn [rbind].
  rewrite assign_each_eq
    by (rewrite length_zip_with_r_eq; rewrite ?length_replicate; reflexivity).
  cbn [rbind].
  rewrite assign_each_eq.
  - f_equal. apply diag_fill, Hh.
  - rewrite length_zip_with_r_eq; [exact Hh|].
    rewrite length_zip_with_r_eq; rewrite ?length_replicate; reflexivity.
Qed.

Lemma upright_bottom (p : vec3) (h : R) :
  vadd p (V3 0 0 (-0.5 * h)) = cap_bottom p np_eye h.
Proof.
  unfold cap_bottom, vadd, vsub, vscale, col2, np_eye, np_diag. cbn.
  f_equal; lra.
Qed.

Lemma upright_top (p : vec3) (h : R) :
  vadd p (V3 0 0 (0.5 * h)) = cap_top p np_eye h.
Proof.
  unfold cap_top, vadd, vscale, col2, np_eye, np_diag. cbn.
  f_equal; lra.
Qed.

Lemma upright_cap_transform (r : R) : np_diag r r 1 = cap_transform np_eye r.
Proof. unfold cap_transform. symmetry. apply matmul_eye_l. Qed.

Lemma upright_lateral_transform (r h : R) :
  np_diag r r h = lateral_transform np_eye r h.
Proof. unfold lateral_transform. symmetry. apply matmul_eye_l. Qed.

Lemma lateral_of_upright (l : list Instance) :
  lateral_of (map upright l)
  = (map pos l,
     zip_with (fun r h => np_diag r r h) (map rad l) (map ht l),
     map col l).
Proof.
  assert (E : map (fun i => lateral_transform (Deferred.ori i) (Deferred.rad i)
                              (Deferred.ht i)) (map upright l)
              = zip_with (fun r h => np_diag r r h) (map rad l) (map ht l)).
  { induction l as [|i l IH]; [reflexivity|].
    cbn [map zip_with]. rewrite IH. f_equal.
    symmetry. apply upright_lateral_transform. }
  unfold lateral_of. rewrite E, !map_map. reflexivity.
Qed.

Lemma eager_cap_loop (rest : list Instance) :
  forall (i : nat) (P : list vec3) (X : list mat3) (C : list rgba),
    length P = (2 * i)%nat -> length X = (2 * i)%nat -> length C = (2 * i)%nat ->
    for_each cap_step (zip (seq i (length rest)) rest)
      (P ++ replicate (2 * length rest) zero3,
       X ++ replicate (2 * length rest) np_eye,
       C ++ replicate (2 * length rest) zero4)
    = Ok (P ++ fst (fst (caps_of (map upright rest))),
          X ++ snd (fst (caps_of (map upright rest))),
          C ++ snd (caps_of (map upright rest))).
Proof.
  induction rest as [|inst rest IH]; intros i P X C HP HX HC.
  - simpl. rewrite !app_nil_r. reflexivity.
  - cbn [length seq zip_with for_each].
    unfold cap_step at 1.
    rewrite (setitem_even P) by exact HP. cbn [rbind].
    rewrite (setitem_odd P) by exact HP. cbn [rbind].
    rewrite (setitem_even X) by exact HX. cbn [rbind].
    rewrite (setitem_odd X) by exact HX. cbn [rbind].
    rewrite (setitem_even C) by exact HC. cbn [rbind].
    rewrite (setitem_odd C) by exact HC. cbn [rbind].
    rewrite IH by (rewrite !length_app; simpl; lia).
    rewrite upright_bottom, upright_top, upright_cap_transform.
    cbn [map caps_of flat_map fst snd app upright Deferred.pos Deferred.rad
         Deferred.ht Deferred.col Deferred.ori].
    rewrite <- !app_assoc. reflexivity.
Qed.

Lemma eager_cap_batch (instances : list Instance) :
  for_each cap_step (enumerate instances)
    (np_zeros zero3 (2 * length instances),
     replicate (2 * length instances) np_eye,
     np_zeros zero4 (2 * length instances))
  = Ok (caps_of (map upright instances)).
Proof.
  unfold enumerate, np_zeros.
  pose proof (eager_cap_loop instances 0 [] [] []) as H.
  cbn [app] in H. rewrite H by reflexivity.
  destruct (caps_of (map upright instances)) as [[p x] c]. reflexivity.
Qed.






End EagerBlocks.

Section EagerTheorems.
Import Eager.








End EagerTheorems.

Section ScriptTheorems.

Lemma for_each_zip_map {I A B C} (f : I * B -> C -> result C) (g : A -> B)
    (l : list A) (k : list I) (acc : C) :
  for_each f (zip k (map g l)) acc
  = for_each (fun e => f (fst e, g (snd e))) (zip k l) acc.
Proof.
  revert k acc. induction l as [|x l IH]; intros [|i k] acc; try reflexivity.
  cbn [map zip_with for_each fst snd].
  destruct (f (i, g x) acc); cbn [rbind]; [apply IH | reflexivity].
Qed.

Lemma rows_of_columns (positions : list vec3) (radii heights : list R)
    (colors : list rgba) :
  length radii = length positions -> length heights = length positions ->
  length colors = length positions ->
  map Eager.pos (rows_of positions radii heights colors) = positions /\
  map Eager.rad (rows_of positions radii heights colors) = radii /\
  map Eager.ht (rows_of positions radii heights colors) = heights /\
  map Eager.col (rows_of positions radii heights colors) = colors /\
  length (rows_of positions radii heights colors) = length positions.
Proof.
  revert radii heights colors.
  induction positions as [|p ps IH]; intros [|r rs] [|h hs] [|c cs] Hr Hh Hc;
    try discriminate; [repeat split|].
  cbn [length] in Hr, Hh, Hc.
  destruct (IH rs hs cs) as (E1 & E2 & E3 & E4 & E5); [lia..|].
  unfold rows_of in *. cbn [zip_with map length Eager.pos Eager.rad Eager.ht
    Eager.col].
  rewrite E1, E2, E3, E4, E5. repeat split.
Qed.

(** X15.  The script [cappedcylinderstest.py] hands its two visuals, for
    arrays of [M] rows, the lateral and the cap batch of upright
    cylinders, caps interleaved: the arrays the eager class holds after
    adding the same cylinders one by one. *)
Theorem script_draws_upright_cylinders (M : nat) (positions : list vec3)
    (radii heights : list R) (colors : list rgba) :
  length positions = M -> length radii = M -> length heights = M ->
  length colors = M ->
  Script.batches M positions radii heights colors
  = Ok (lateral_of (map upright (rows_of positions radii heights colors)),
        caps_of (map upright (rows_of positions radii heights colors))).
Proof.
  intros Hp Hr Hh Hc. subst M.
  destruct (rows_of_columns positions radii heights colors Hr Hh Hc)
    as (E1 & E2 & E3 & E4 & E5).
  unfold Script.batches.
  rewrite diag_transforms_ok by assumption. cbn [rbind].
  pose proof (eager_cap_batch (rows_of positions radii heights colors)) as Hcap.
  unfold enumerate, rows_of in Hcap. rewrite length_map in Hcap.
  rewrite for_each_zip_map in Hcap.
  rewrite (for_each_ext _ Script.cap_step) in Hcap.
  2:{ intros [i [[[p r] h] c]] acc. reflexivity. }
  fold (rows_of positions radii heights colors) in Hcap.
  assert (EL : length (zip (zip (zip positions radii) heights) colors)
               = length positions).
  { rewrite <- E5. unfold rows_of. rewrite length_map. reflexivity. }
  rewrite EL in Hcap |- *. unfold np_zeros in Hcap |- *.
  rewrite Hcap. cbn [rbind].
  rewrite lateral_of_upright, E1, E2, E3, E4. reflexivity.
Qed.

Lemma script_draws_upright_cylinders_witness :
  Script.batches 1 [V3 0 0 0] [1] [2] [RGBA 1 0 0 1]
  = Ok (lateral_of
          (map upright (rows_of [V3 0 0 0] [1] [2] [RGBA 1 0 0 1])),
        caps_of (map upright (rows_of [V3 0 0 0] [1] [2] [RGBA 1 0 0 1]))).
Proof.
  apply script_draws_upright_cylinders; reflexivity.
Defined.

End ScriptTheorems.

(** ** Picking by ID color *)

Section PickingTheorems.
Import Picking.

Lemma id_bytes (idx : Z) :
  (0 <= idx < 2 ^ 24)%Z ->
  (0 <= Z.land idx 255 <= 255)%Z /\
  (0 <= Z.land (Z.shiftr idx 8) 255 <= 255)%Z /\
  (0 <= Z.land (Z.shiftr idx 16) 255 <= 255)%Z /\
  (Z.land idx 255 + Z.shiftl (Z.land (Z.shiftr idx 8) 255) 8
   + Z.shiftl (Z.land (Z.shiftr idx 16) 255) 16 = idx)%Z.
Proof.
  intros H.
  change 255%Z with (Z.ones 8).
  rewrite !Z.land_ones, !Z.shiftr_div_pow2, !Z.shiftl_mul_pow2 by lia.
  change (2 ^ 8)%Z with 256%Z. change (2 ^ 16)%Z with 65536%Z.
  change (2 ^ 24)%Z with 16777216%Z in H.
  pose proof (Z.mod_pos_bound idx 256 eq_refl).
  pose proof (Z.mod_pos_bound (idx / 256) 256 eq_refl).
  pose proof (Z.div_mod idx 256 ltac:(lia)).
  pose proof (Z.div_mod (idx / 256) 256 ltac:(lia)).
  assert (E : (idx / 256 / 256 = idx / 65536)%Z)
    by (rewrite Z.div_div by lia; reflexivity).
  assert (Hs : (idx / 65536 < 256)%Z)
    by (apply Z.div_lt_upper_bound; lia).
  assert (Hp : (0 <= idx / 65536)%Z) by (apply Z.div_pos; lia).
  rewrite (Z.mod_small (idx / 65536) 256) by lia.
  change (Z.ones 8) with 255%Z. lia.
Qed.

Lemma channel_inj (a b : Z) : IZR a / 255 = IZR b / 255 -> a = b.
Proof. intros H. apply eq_IZR. lra. Qed.

(** X16.  The ID colors can be read back: for a sphere number below
    [2^24 - 1] each channel of its ID color is a byte over 255, so that
    an 8-bit framebuffer holds it exactly, the pick index decoded from
    these bytes is the sphere number, and no other sphere below that
    bound has the same color.  The bound is sharp: sphere [2^24 - 1]
    gets the color of the background, which decodes to [-1], and from
    there on the colors repeat. *)
Theorem pick_id_decodes_id_color :
  (forall i : nat,
     (Z.of_nat i + 1 < 2 ^ 24)%Z ->
     exists b0 b1 b2 : Z,
       (0 <= b0 <= 255)%Z /\ (0 <= b1 <= 255)%Z /\ (0 <= b2 <= 255)%Z /\
       id_color i = RGBA (IZR b0 / 255) (IZR b1 / 255) (IZR b2 / 255) 1 /\
       pick_id (b0, b1, b2) = Z.of_nat i /\
       forall j : nat,
         (Z.of_nat j + 1 < 2 ^ 24)%Z -> id_color j = id_color i -> j = i) /\
  id_color (Z.to_nat (2 ^ 24 - 1)) = RGBA (0 / 255) (0 / 255) (0 / 255) 1 /\
  pick_id (0, 0, 0)%Z = (-1)%Z /\
  (forall i : nat, id_color (i + Z.to_nat (2 ^ 24)) = id_color i).
Proof.
  split; [|split; [|split]].
  - intros i Hi.
    destruct (id_bytes (Z.of_nat i + 1)) as (B0 & B1 & B2 & E); [lia|].
    eexists _, _, _. split; [exact B0|]. split; [exact B1|]. split; [exact B2|].
    split; [reflexivity|]. split.
    + unfold pick_id. rewrite E. lia.
    + intros j Hj Hc.
      destruct (id_bytes (Z.of_nat j + 1)) as (_ & _ & _ & E'); [lia|].
      unfold id_color in Hc. injection Hc as H0 H1 H2.
      apply channel_inj in H0, H1, H2.
      rewrite H0, H1, H2, E in E'. lia.
  - unfold id_color. rewrite Z2Nat.id by lia.
    replace (2 ^ 24 - 1 + 1)%Z with 16777216%Z by reflexivity.
    replace (Z.land 16777216 255) with 0%Z by reflexivity.
    replace (Z.land (Z.shiftr 16777216 8) 255) with 0%Z by reflexivity.
    replace (Z.land (Z.shiftr 16777216 16) 255) with 0%Z by reflexivity.
    reflexivity.
  - reflexivity.
  - intros i. unfold id_color.
    replace (Z.of_nat (i + Z.to_nat (2 ^ 24)) + 1)%Z
      with (Z.of_nat i + 1 + 1 * 2 ^ 24)%Z
      by (rewrite Nat2Z.inj_add, Z2Nat.id; lia).
    set (idx := (Z.of_nat i + 1)%Z).
    assert (Hidx : (0 <= idx)%Z) by (unfold idx; lia).
    change 255%Z with (Z.ones 8).
    rewrite !Z.land_ones, !Z.shiftr_div_pow2 by lia.
    assert (E0 : ((idx + 1 * 2 ^ 24) mod 2 ^ 8 = idx mod 2 ^ 8)%Z).
    { change (1 * 2 ^ 24)%Z with (65536 * 2 ^ 8)%Z. apply Z_mod_plus_full. }
    assert (E1 : (((idx + 1 * 2 ^ 24) / 2 ^ 8) mod 2 ^ 8
                  = (idx / 2 ^ 8) mod 2 ^ 8)%Z).
    { change (1 * 2 ^ 24)%Z with (65536 * 2 ^ 8)%Z.
      rewrite Z.div_add by lia.
      change 65536%Z with (256 * 2 ^ 8)%Z. apply Z_mod_plus_full. }
    assert (E2 : (((idx + 1 * 2 ^ 24) / 2 ^ 16) mod 2 ^ 8
                  = (idx / 2 ^ 16) mod 2 ^ 8)%Z).
    { change (1 * 2 ^ 24)%Z with (256 * 2 ^ 16)%Z.
      rewrite Z.div_add by lia.
      change 256%Z with (1 * 2 ^ 8)%Z at 1. apply Z_mod_plus_full. }
    rewrite E0, E1, E2. reflexivity.
Qed.

Lemma pick_id_decodes_id_color_witness :
  exists b0 b1 b2 : Z,
    id_color 0 = RGBA (IZR b0 / 255) (IZR b1 / 255) (IZR b2 / 255) 1 /\
    pick_id (b0, b1, b2) = 0%Z.
Proof.
  destruct pick_id_decodes_id_color as [H _].
  destruct (H 0%nat) as (b0 & b1 & b2 & _ & _ & _ & E & P & _); [cbn; lia|].
  exists b0, b1, b2. split; [exact E | exact P].
Defined.






End PickingTheorems.

(** ** Picking by ray casting *)

Section RayTheorems.
Import RayPick.

(** The squared distance to [C] along the ray, as a polynomial in the
    parameter. *)
Lemma ray_distance (origin direction C : vec3) (t : R) :
  dot (vsub (ray_point origin direction t) C)
      (vsub (ray_point origin direction t) C)
  = dot (vsub origin C) (vsub origin C)
    + 2 * t * dot direction (vsub origin C)
    + t * t * dot direction direction.
Proof.
  unfold ray_point, dot, vsub, vadd, vscale. cbn. ring.
Qed.

Lemma ray_distance_unit (radius : R) (origin direction C : vec3) (t : R) :
  dot direction direction = 1 ->
  dot (vsub (ray_point origin direction t) C)
      (vsub (ray_point origin direction t) C) - radius ^ 2
  = (t + dot direction (vsub origin C)) * (t + dot direction (vsub origin C))
    - disc radius origin direction C.
Proof.
  intros Hd. rewrite ray_distance, Hd. unfold disc. ring.
Qed.


(** X18.  The ray test is geometrically right for a unit direction.
    When [disc] is not negative, the point of the ray at [t_hit] lies on
    the sphere, and no point of the line at a smaller parameter lies in
    the ball: [t_hit] is where the ray enters.  When [disc] is negative
    the whole line stays outside the sphere.  When the origin lies
    inside the sphere, [t_hit] is negative and the loop skips the
    sphere: a sphere the camera is in cannot be picked. *)
Theorem ray_hit_lies_on_sphere (radius : R) (origin direction C : vec3) :
  dot direction direction = 1 ->
  (0 <= disc radius origin direction C ->
   dot (vsub (ray_point origin direction (t_hit radius origin direction C)) C)
       (vsub (ray_point origin direction (t_hit radius origin direction C)) C)
   = radius ^ 2 /\
   forall t,
     dot (vsub (ray_point origin direction t) C)
         (vsub (ray_point origin direction t) C) <= radius ^ 2 ->
     t_hit radius origin direction C <= t) /\
  (disc radius origin direction C < 0 ->
   forall t,
     radius ^ 2 < dot (vsub (ray_point origin direction t) C)
                      (vsub (ray_point origin direction t) C)) /\
  (dot (vsub origin C) (vsub origin C) < radius ^ 2 ->
   0 <= disc radius origin direction C /\
   t_hit radius origin direction C < 0 /\
   forall acc i, ray_step radius origin direction acc (i, C) = acc).
Proof.
  intros Hd.
  set (b := dot direction (vsub origin C)).
  set (D := disc radius origin direction C).
  split; [|split].
  - intros HD.
    assert (Hq : sqrt D * sqrt D = D) by (apply sqrt_sqrt; exact HD).
    pose proof (sqrt_pos D) as Hq0.
    split.
    + pose proof (ray_distance_unit radius origin direction C
                    (t_hit radius origin direction C) Hd) as E.
      fold b D in E. unfold t_hit in E |- *. fold b D in E |- *.
      replace ((- b - sqrt D + b) * (- b - sqrt D + b) - D) with 0 in E
        by (ring_simplify; nra).
      lra.
    + intros t Ht.
      pose proof (ray_distance_unit radius origin direction C t Hd) as E.
      fold b D in E. unfold t_hit. fold b D.
      destruct (Rle_dec (- b - sqrt D) t) as [Hle|Hgt]; [exact Hle|].
      exfalso. apply Rnot_le_lt in Hgt.
      assert (H1 : 0 < (- (t + b) - sqrt D) * (- (t + b) + sqrt D))
        by (apply Rmult_lt_0_compat; lra).
      nra.
  - intros HD t.
    pose proof (ray_distance_unit radius origin direction C t Hd) as E.
    fold b D in E. fold D in HD.
    pose proof (Rle_0_sqr (t + b)) as H. unfold Rsqr in H. lra.
  - intros Hin.
    assert (HD : b * b < D).
    { unfold D, disc. fold b. lra. }
    assert (HD0 : 0 <= D).
    { pose proof (Rle_0_sqr b) as H. unfold Rsqr in H. lra. }
    assert (Hq : sqrt D * sqrt D = D) by (apply sqrt_sqrt; exact HD0).
    pose proof (sqrt_pos D) as Hq0.
    assert (Ht : t_hit radius origin direction C < 0).
    { unfold t_hit. fold b D.
      destruct (Rlt_dec (- b - sqrt D) 0) as [Hlt|Hge]; [exact Hlt|].
      exfalso. apply Rnot_lt_le in Hge.
      assert (H1 : 0 <= (- b - sqrt D) * (- b + sqrt D))
        by (apply Rmult_le_pos; lra).
      nra. }
    split; [exact HD0|]. split; [exact Ht|].
    intros acc i. unfold ray_step. fold D.
    destruct (Rlt_dec D 0); [reflexivity|].
    destruct (Rlt_dec 0 (t_hit radius origin direction C)); [lra | reflexivity].
Qed.

Lemma ray_hit_lies_on_sphere_witness :
  dot (vsub (ray_point (V3 0 0 (-3)) (V3 0 0 1)
               (t_hit 1 (V3 0 0 (-3)) (V3 0 0 1) (V3 0 0 0))) (V3 0 0 0))
      (vsub (ray_point (V3 0 0 (-3)) (V3 0 0 1)
               (t_hit 1 (V3 0 0 (-3)) (V3 0 0 1) (V3 0 0 0))) (V3 0 0 0))
  = 1 ^ 2.
Proof.
  apply (ray_hit_lies_on_sphere 1 (V3 0 0 (-3)) (V3 0 0 1) (V3 0 0 0)).
  - unfold dot. cbn. lra.
  - unfold disc, dot, vsub. cbn. lra.
Defined.

End RayTheorems.

Section RaySelection.
Import RayPick.






End RaySelection.

(** ** Voltage display *)

Section PlotTheorems.
Import Plot.

(** X20.  The color filter shown for a membrane voltage: red rises
    linearly from 0 at -80 mV to 1 at +50 mV and is clamped outside,
    blue is its complement, green and alpha are fixed; so every channel
    is a valid color component whatever the voltage, and a higher
    voltage is never less red. *)
Theorem voltage_filter_range (v : R) :
  0 <= cr (voltage_filter v) <= 1 /\
  0 <= cb (voltage_filter v) <= 1 /\
  cr (voltage_filter v) + cb (voltage_filter v) = 1 /\
  cg (voltage_filter v) = 0.2 /\ ca (voltage_filter v) = 1 /\
  (v <= -80 -> cr (voltage_filter v) = 0) /\
  (50 <= v -> cr (voltage_filter v) = 1) /\
  (-80 <= v <= 50 -> cr (voltage_filter v) = (v + 80) / 130) /\
  (forall v', v <= v' -> cr (voltage_filter v) <= cr (voltage_filter v')).
Proof.
  assert (Hclip : forall x, cr (voltage_filter x)
                            = Rmin (Rmax ((x + 80) / 130) 0) 1) by reflexivity.
  assert (Hb : cb (voltage_filter v) = 1 - cr (voltage_filter v)) by reflexivity.
  assert (Hcases : forall x,
    (x <= -80 /\ Rmin (Rmax ((x + 80) / 130) 0) 1 = 0) \/
    (-80 <= x <= 50 /\ Rmin (Rmax ((x + 80) / 130) 0) 1 = (x + 80) / 130) \/
    (50 <= x /\ Rmin (Rmax ((x + 80) / 130) 0) 1 = 1)).
  { intros x. unfold Rmin, Rmax.
    destruct (Rle_dec ((x + 80) / 130) 0) as [H0|H0].
    - destruct (Rle_dec 0 1) as [H01|H01]; [|lra]. left. split; lra.
    - destruct (Rle_dec ((x + 80) / 130) 1) as [H1|H1].
      + right. left. split; lra.
      + right. right. split; lra. }
  rewrite Hb, !Hclip.
  destruct (Hcases v) as [[Hv E] | [[Hv E] | [Hv E]]]; rewrite E;
    (repeat split; try lra;
     intros v' Hle; rewrite Hclip;
     destruct (Hcases v') as [[Hv' E'] | [[Hv' E'] | [Hv' E']]]; rewrite E'; lra).
Qed.

Lemma voltage_filter_range_witness :
  cr (voltage_filter (-65)) = (-65 + 80) / 130.
Proof. apply (voltage_filter_range (-65)). lra. Defined.

Lemma last_n_short {A} (n : nat) (l : list A) :
  (length l <= n)%nat -> last_n n l = l.
Proof.
  intros H. unfold last_n. replace (length l - n)%nat with 0%nat by lia.
  reflexivity.
Qed.

Lemma length_last_n {A} (n : nat) (l : list A) :
  length (last_n n l) = Nat.min n (length l).
Proof. unfold last_n. rewrite length_drop. lia. Qed.

(** Appending to the kept tail and dropping the oldest entry when there
    is one too many keeps the tail of the longer history. *)
Lemma last_n_snoc {A} (n : nat) (h : list A) (x : A) :
  (1 <= n)%nat ->
  (if decide (n < length (last_n n h ++ [x]))%nat
   then tail (last_n n h ++ [x]) else last_n n h ++ [x])
  = last_n n (h ++ [x]).
Proof.
  intros Hn. rewrite length_app, length_last_n. cbn [length].
  destruct (decide (length h < n)%nat) as [Hs|Hl].
  - rewrite !last_n_short by (rewrite ?length_app; cbn; lia).
    destruct (decide _); [lia | reflexivity].
  - destruct (decide _) as [_|Hc]; [|lia].
    unfold last_n. rewrite length_app. cbn [length].
    replace (length h + 1 - n)%nat with (S (length h - n)) by lia.
    destruct (lookup_lt_is_Some_2 h (length h - n)) as [y Hy]; [lia|].
    rewrite (drop_S _ _ _ Hy). cbn [app tail].
    rewrite drop_app_le by lia. reflexivity.
Qed.

Lemma trace_limit_pos : (1 <= trace_limit)%nat.
Proof. unfold trace_limit. lia. Qed.

Lemma pop0_tail {A} (l : list A) : l <> [] -> pop0 l = Ok (tail l).
Proof. destruct l; [congruence | reflexivity]. Qed.

(** One frame on traces of one length, in closed form. *)
Lemma update_frame_eq (t v : R) (running : bool) (w : Window) :
  length (trace_V w) = length (trace_t w) ->
  update_frame t v running w
  = (Ok tt,
     {| trace_t :=
          if decide (trace_limit < length (trace_t w ++ [t]))%nat
          then tail (trace_t w ++ [t]) else trace_t w ++ [t];
        trace_V :=
          if decide (trace_limit < length (trace_V w ++ [v]))%nat
          then tail (trace_V w ++ [v]) else trace_V w ++ [v];
        color_filter := voltage_filter v;
        timer_active := timer_active w && running |}).
Proof.
  intros HL. unfold update_frame.
  unfold bind at 1, modify at 1. unfold bind at 1, gets at 1.
  cbn [trace_t trace_V color_filter timer_active].
  assert (EL : length (trace_V w ++ [v]) = length (trace_t w ++ [t]))
    by (rewrite !length_app, HL; reflexivity).
  rewrite EL.
  destruct (decide (trace_limit < length (trace_t w ++ [t]))%nat) as [Hbig|Hsmall].
  - unfold bind, gets, lift, modify, ret.
    cbn [trace_t trace_V color_filter timer_active].
    rewrite !pop0_tail by (intros E; apply app_eq_nil in E as [_ E]; discriminate E).
    destruct running; cbn [trace_t trace_V color_filter timer_active];
      rewrite ?andb_true_r, ?andb_false_r; reflexivity.
  - unfold bind, gets, lift, modify, ret.
    destruct running; cbn [trace_t trace_V color_filter timer_active];
      rewrite ?andb_true_r, ?andb_false_r; reflexivity.
Qed.

Lemma frames_spec (samples : list (R * R * bool)) :
  forall (w : Window) (ht hv : list R),
    timer_active w = true ->
    trace_t w = last_n trace_limit ht -> trace_V w = last_n trace_limit hv ->
    length hv = length ht ->
    exists w',
      frames samples w = (Ok tt, w') /\
      trace_t w'
      = last_n trace_limit (ht ++ map (fun s => fst (fst s)) (delivered samples)) /\
      trace_V w'
      = last_n trace_limit (hv ++ map (fun s => snd (fst s)) (delivered samples)) /\
      color_filter w'
      = match last (delivered samples) with
        | Some s => voltage_filter (snd (fst s))
        | None => color_filter w
        end /\
      timer_active w' = forallb snd (delivered samples).
Proof.
  induction samples as [|[[t v] running] rest IH]; intros w ht hv Ha Ht Hv HL.
  - exists w. cbn. rewrite !app_nil_r. auto.
  - cbn [frames]. unfold bind at 1, gets at 1. rewrite Ha.
    unfold bind at 1.
    rewrite update_frame_eq
      by (rewrite Ht, Hv, !length_last_n, HL; reflexivity).
    rewrite Ht, Hv, !last_n_snoc by exact trace_limit_pos. rewrite Ha. cbn [andb].
    cbn [delivered map fst snd].
    destruct running.
    + destruct (IH {| trace_t := last_n trace_limit (ht ++ [t]);
                      trace_V := last_n trace_limit (hv ++ [v]);
                      color_filter := voltage_filter v;
                      timer_active := true |} (ht ++ [t]) (hv ++ [v]))
        as (w' & E & Et & Ev & Ec & Ea); try reflexivity.
      { rewrite !length_app, HL. reflexivity. }
      exists w'. split; [exact E|].
      rewrite <- !app_assoc in Et, Ev. cbn [app] in Et, Ev.
      split; [exact Et|]. split; [exact Ev|].
      split.
      * rewrite Ec. cbn [color_filter]. rewrite last_cons.
        destruct (last (delivered rest)); reflexivity.
      * rewrite Ea. reflexivity.
    + eexists. split.
      { destruct rest as [|[[t' v'] r'] rest']; [reflexivity|].
        cbn [frames]. unfold bind at 1, gets at 1. reflexivity. }
      cbn [trace_t trace_V color_filter timer_active map app last forallb
           fst snd andb].
      auto.
Qed.

(** X21.  The traces of the plot after any number of timer ticks from a
    new window: [update_frame] never raises; the timer stops with the
    first frame that finds the worker stopped, and no later sample is
    plotted; the two traces hold the last 5000 plotted samples, oldest
    first, so they have one length and never more than 5000 entries;
    and the color filter is the one of the last plotted voltage. *)
Theorem traces_keep_latest_samples (samples : list (R * R * bool)) :
  exists w,
    frames samples initial = (Ok tt, w) /\
    trace_t w = last_n trace_limit (map (fun s => fst (fst s)) (delivered samples)) /\
    trace_V w = last_n trace_limit (map (fun s => snd (fst s)) (delivered samples)) /\
    length (trace_t w) = length (trace_V w) /\
    (length (trace_t w) <= trace_limit)%nat /\ trace_limit = 5000%nat /\
    color_filter w
    = match last (delivered samples) with
      | Some s => voltage_filter (snd (fst s))
      | None => RGBA 0.3 0.5 0.8 1
      end /\
    timer_active w = forallb snd (delivered samples).
Proof.
  destruct (frames_spec samples initial [] []) as (w & E & Et & Ev & Ec & Ea);
    try reflexivity.
  exists w. cbn [app] in Et, Ev. split; [exact E|].
  split; [exact Et|]. split; [exact Ev|].
  split; [rewrite Et, Ev, !length_last_n, !length_map; reflexivity|].
  split; [rewrite Et, length_last_n; lia|].
  split; [reflexivity|].
  split; [exact Ec | exact Ea].
Qed.

Lemma emissions_spec (n : nat) :
  forall count turn : nat,
    (count < 5)%nat ->
    forall k, k ∈ emissions count n turn <->
              (turn <= k < turn + n)%nat /\ ((k - turn + count + 1) mod 5 = 0)%nat.
Proof.
  induction n as [|n IH]; intros count turn Hc k.
  - cbn. split; [intros H; apply elem_of_nil in H; contradiction | lia].
  - cbn [emissions]. unfold emit_step.
    destruct (decide (5 <= count + 1)%nat) as [He|He].
    + assert (count = 4%nat) as -> by lia.
      rewrite elem_of_app, list_elem_of_singleton, (IH 0%nat (S turn)) by lia.
      split.
      * intros [-> | [Hr Hm]].
        -- split; [lia|]. replace (turn - turn + 4 + 1)%nat with 5%nat by lia.
           reflexivity.
        -- split; [lia|].
           replace (k - turn + 4 + 1)%nat with (k - S turn + 0 + 1 + 1 * 5)%nat
             by lia.
           rewrite Nat.Div0.mod_add. exact Hm.
      * intros [Hr Hm].
        destruct (decide (k = turn)) as [->|Hne]; [left; reflexivity|].
        right. split; [lia|].
        replace (k - turn + 4 + 1)%nat with (k - S turn + 0 + 1 + 1 * 5)%nat
          in Hm by lia.
        rewrite Nat.Div0.mod_add in Hm. exact Hm.
    + cbn [app]. rewrite (IH (count + 1)%nat (S turn)) by lia.
      split.
      * intros [Hr Hm]. split; [lia|].
        replace (k - turn + count + 1)%nat with (k - S turn + (count + 1) + 1)%nat
          by lia.
        exact Hm.
      * intros [Hr Hm].
        destruct (decide (k = turn)) as [->|Hne].
        -- exfalso. replace (turn - turn + count + 1)%nat with (count + 1)%nat
             in Hm by lia.
           rewrite Nat.mod_small in Hm by lia. lia.
        -- split; [lia|].
           replace (k - S turn + (count + 1) + 1)%nat with (k - turn + count + 1)%nat
             by lia.
           exact Hm.
Qed.

(** X22.  The worker emits on every fifth turn of its loop and on no
    other: among the first [n] turns, counted from 1, the emitting ones
    are the multiples of 5. *)
Theorem worker_emits_every_fifth_turn (n k : nat) :
  k ∈ emissions 0 n 1 <-> (1 <= k <= n)%nat /\ (k mod 5 = 0)%nat.
Proof.
  rewrite (emissions_spec n 0 1) by lia.
  split; intros [Hr Hm]; (split; [lia|]).
  - replace (k - 1 + 0 + 1)%nat with k in Hm by lia. exact Hm.
  - replace (k - 1 + 0 + 1)%nat with k by lia. exact Hm.
Qed.

Lemma worker_emits_every_fifth_turn_witness : 10%nat ∈ emissions 0 12 1.
Proof.
  apply worker_emits_every_fifth_turn. split; [lia | reflexivity].
Defined.

End PlotTheorems.
